(** * Worker-side task lifecycle of project5_2: reliable queue, lock, retry.

    The development embeds the Python sources
      - src/utils/redis_client.py      (RedisManager)
      - extend/state_synchronizer.py   (StateSynchronizer)
      - extend/task_processor.py       (TaskProcessor)
      - extend/retry_manager.py        (RetryManager)
      - src/course_system.py           (CourseSystem)
    over an explicit model of the shared key-value store.  Every store command
    is a pure function of the store and of the instant [now] at which it runs;
    the store is taken to be reachable, so a command fails only when the
    server itself rejects its arguments. *)

From Stdlib Require Import ZArith QArith Qminmax Qpower Qround Lia Lqa.
From stdpp Require Import gmap strings list.

Local Open Scope Z_scope.

(** ** The store commands the sources call *)

Module Redis.

(** A field value as the client hands it to [HSET]. *)
Inductive hval : Type :=
| HStr (s : string)
| HInt (z : Z)
| HTime (t : Q).

(** The message [update_state] publishes: task id, status, timestamp. *)
Record status_event : Type := StatusEvent {
  ev_task_id : string;
  ev_status : string;
  ev_timestamp : Q }.

(** String keys carry their value and the instant at which they expire;
    lists and hashes never expire here. *)
Record store : Type := Store {
  strs : gmap string (string * Q);
  lsts : gmap string (list string);
  hshs : gmap string (gmap string hval);
  pubs : list (string * status_event) }.

Definition empty : store := Store ∅ ∅ ∅ [].

(** What the server answers to [SET ... EX ... NX]. *)
Inductive set_reply : Type :=
| SetOk          (* redis-py returns True *)
| SetNil         (* redis-py returns None: the key exists *)
| SetError.      (* ResponseError: invalid expire time *)

(** [unexpired now exp]: a key that expires at [exp] is still there at
    [now].  The server drops a key once its clock is greater than the expiry
    instant, so the key is still there at the instant [exp] itself. *)
Definition unexpired (now exp : Q) : bool := Qle_bool now exp.

(** The largest instant, in milliseconds, the server can store: a signed
    64-bit integer. *)
Definition max_ms : Z := 2 ^ 63 - 1.

(** The clock of the server, in milliseconds. *)
Definition now_ms (now : Q) : Z := Qfloor (now * 1000).

(** [SET ... EX ex] at [now]: the server takes [ex] seconds when [ex] is
    positive, [ex * 1000] fits in 64 bits, and the expiry instant
    [ex * 1000 + now] in milliseconds, which it computes in 64 bits, is
    positive and has not wrapped around; it answers "invalid expire time"
    otherwise (and "not an integer or out of range" beyond 64 bits). *)
Definition accepts_ex (now : Q) (ex : Z) : bool :=
  bool_decide (0 < ex /\ ex <= max_ms / 1000 /\
               0 < ex * 1000 + now_ms now <= max_ms).

(** A key is there as long as its expiry instant is not past. *)
Definition live (now : Q) (k : string) (s : store) : bool :=
  match strs s !! k with
  | Some (_, exp) => unexpired now exp
  | None => false
  end.

Definition get (now : Q) (k : string) (s : store) : option string :=
  match strs s !! k with
  | Some (v, exp) => if unexpired now exp then Some v else None
  | None => None
  end.

(** [SET k v EX ex NX]: one command, the test and the write together. *)
Definition set_nx_ex (now : Q) (k v : string) (ex : Z) (s : store)
  : set_reply * store :=
  if negb (accepts_ex now ex) then (SetError, s)
  else if live now k s then (SetNil, s)
  else (SetOk, Store (<[k := (v, (now + inject_Z ex)%Q)]> (strs s)) (lsts s) (hshs s) (pubs s)).

Definition delete (k : string) (s : store) : store :=
  Store (base.delete k (strs s)) (lsts s) (hshs s) (pubs s).

(** [EXPIRE k ttl]: a new expiry for a key that is there, nothing otherwise;
    a ttl that is not positive removes the key. *)
Definition expire (now : Q) (k : string) (ttl : Z) (s : store) : store :=
  match strs s !! k with
  | Some (v, exp) =>
      if unexpired now exp then
        if bool_decide (ttl <= 0) then delete k s
        else Store (<[k := (v, (now + inject_Z ttl)%Q)]> (strs s))
                   (lsts s) (hshs s) (pubs s)
      else s
  | None => s
  end.

(** Lists: an absent key is the empty list and an emptied list is removed. *)
Definition lrange (k : string) (s : store) : list string :=
  default [] (lsts s !! k).

Definition put_list (k : string) (l : list string) (s : store) : store :=
  Store (strs s)
        (match l with [] => base.delete k (lsts s) | _ => <[k := l]> (lsts s) end)
        (hshs s) (pubs s).

Definition rpush (k v : string) (s : store) : store :=
  put_list k (lrange k s ++ [v]) s.

Definition lindex0 (k : string) (s : store) : option string :=
  head (lrange k s).

(** [RPOPLPUSH src dst]: the tail of [src] becomes the head of [dst]. *)
Definition rpoplpush (src dst : string) (s : store) : option string * store :=
  match reverse (lrange src s) with
  | [] => (None, s)
  | x :: rest =>
      let s1 := put_list src (reverse rest) s in
      (Some x, put_list dst (x :: lrange dst s1) s1)
  end.

(** Removal of the first occurrence, head to tail: [LREM k 1 v]. *)
Fixpoint remove_first (v : string) (l : list string) : list string :=
  match l with
  | [] => []
  | x :: l' => if decide (x = v) then l' else x :: remove_first v l'
  end.

Definition lrem1 (k v : string) (s : store) : store :=
  put_list k (remove_first v (lrange k s)) s.

(** [HSET k mapping]: the given fields overwrite, the others stay. *)
Definition hset (k : string) (mapping : gmap string hval) (s : store) : store :=
  Store (strs s) (lsts s)
        (<[k := mapping ∪ default ∅ (hshs s !! k)]> (hshs s)) (pubs s).

Definition hgetall (k : string) (s : store) : gmap string hval :=
  default ∅ (hshs s !! k).

Definition publish (ch : string) (m : status_event) (s : store) : store :=
  Store (strs s) (lsts s) (hshs s) (pubs s ++ [(ch, m)]).

(** [BLPOP keys timeout] when no producer pushes during the wait: the head
    of the first listed key that is not empty, together with the key, or
    nothing once the timeout has passed. *)
Fixpoint blpop (keys : list string) (s : store)
  : option (string * string) * store :=
  match keys with
  | [] => (None, s)
  | k :: rest =>
      match lrange k s with
      | [] => blpop rest s
      | x :: l => (Some (k, x), put_list k l s)
      end
  end.

End Redis.

(** ** RetryManager (extend/retry_manager.py)

    Durations are rationals: the float arithmetic of the source is read as
    exact arithmetic.  [random.uniform a b] is [a + (b - a) * random()], and
    the draw [u] of [random()] is an argument. *)

Module RetryManager.

Record t : Type := Make {
  max_retries : Z;
  base_delay : Q;
  max_delay : Q }.

(** The defaults of [__init__]. *)
Definition default : t := Make 3 1 60.

Definition should_retry (self : t) (current_retries : Z) : bool :=
  bool_decide (current_retries < max_retries self).

Definition uniform (a b u : Q) : Q := (a + (b - a) * u)%Q.

Definition delay_of (self : t) (current_retries : Z) : Q :=
  (base_delay self * (2 ^ current_retries))%Q.

Definition jitter_of (self : t) (current_retries : Z) (u : Q) : Q :=
  uniform 0 ((1 # 10) * delay_of self current_retries)%Q u.

Definition get_backoff_time (self : t) (current_retries : Z) (u : Q) : Q :=
  Qmin (delay_of self current_retries + jitter_of self current_retries u)%Q
       (max_delay self).

(** The least value [get_backoff_time] can return for a given count: the
    draw that adds no jitter. *)
Definition backoff_lower_bound (self : t) (current_retries : Z) : Q :=
  get_backoff_time self current_retries 0.

End RetryManager.

(** ** StateSynchronizer (extend/state_synchronizer.py) and RedisManager
       (src/utils/redis_client.py) *)

Definition state_key (task_id : string) : string :=
  "task:" +:+ task_id +:+ ":state".

Module RedisManager.

(** [f"lock:task:{task_id}"] *)
Definition lock_key (task_id : string) : string := "lock:task:" +:+ task_id.

Definition acquire_lock (now : Q) (worker_id task_id : string)
    (expire_seconds : Z) (s : Redis.store) : bool * Redis.store :=
  match Redis.set_nx_ex now (lock_key task_id) worker_id expire_seconds s with
  | (Redis.SetOk, s') => (true, s')
  | (_, s') => (false, s')
  end.

Definition release_lock (now : Q) (worker_id task_id : string)
    (s : Redis.store) : Redis.store :=
  match Redis.get now (lock_key task_id) s with
  | Some val =>
      if decide (val = worker_id) then Redis.delete (lock_key task_id) s else s
  | None => s
  end.

(** [update_state]: the four standard fields, overwritten by [extra_info],
    are written to the state hash, then the change is published. *)
Definition update_state (now : Q) (worker_id task_id status : string)
    (retry_count : Z) (extra_info : gmap string Redis.hval)
    (s : Redis.store) : Redis.store :=
  let mapping : gmap string Redis.hval :=
    extra_info ∪
    <["status" := Redis.HStr status]>
    (<["last_update" := Redis.HTime now]>
    (<["retry_count" := Redis.HInt retry_count]>
    (<["worker_id" := Redis.HStr worker_id]> ∅))) in
  Redis.publish "task_status_updates"
    (Redis.StatusEvent task_id status now)
    (Redis.hset (state_key task_id) mapping s).

(** [heartbeat]: refreshes [last_update] and the TTL of [lock:task:<id>]. *)
Definition heartbeat (now : Q) (task_id : string) (s : Redis.store)
  : Redis.store :=
  if decide (task_id = "") then s
  else
    Redis.expire now (lock_key task_id) 300
      (Redis.hset (state_key task_id) {["last_update" := Redis.HTime now]} s).

End RedisManager.

Module StateSynchronizer.

(** [f"lock:{resource_id}"] *)
Definition lock_key (resource_id : string) : string := "lock:" +:+ resource_id.

(** [bool(acquired)]: only the server's OK counts; a rejected command
    raises and the handler returns False. *)
Definition acquire_lock (now : Q) (resource_id owner_id : string)
    (expire_seconds : Z) (s : Redis.store) : bool * Redis.store :=
  match Redis.set_nx_ex now (lock_key resource_id) owner_id expire_seconds s with
  | (Redis.SetOk, s') => (true, s')
  | (Redis.SetNil, s') => (false, s')
  | (Redis.SetError, s') => (false, s')
  end.

(** Read, compare, delete: three steps. *)
Definition release_lock (now : Q) (resource_id owner_id : string)
    (s : Redis.store) : Redis.store :=
  match Redis.get now (lock_key resource_id) s with
  | Some val =>
      if decide (val = owner_id) then Redis.delete (lock_key resource_id) s
      else s
  | None => s
  end.

Definition sync_state (now : Q) (worker_id task_id status : string)
    (data : gmap string Redis.hval) (s : Redis.store) : Redis.store :=
  RedisManager.update_state now worker_id task_id status 0 data s.

Definition get_state (task_id : string) (s : Redis.store)
  : gmap string Redis.hval :=
  Redis.hgetall (state_key task_id) s.

End StateSynchronizer.

(** ** Values of [json.loads] *)

#[warnings="-register-all"]
Inductive json : Type :=
| JNull
| JBool (b : bool)
| JInt (z : Z)
| JFloat (q : Q)
| JStr (s : string)
| JArr (items : list json)
| JObj (fields : list (string * json)).

(** Python's truth value of a parsed value ([if task_id:]). *)
Definition truthy (v : json) : bool :=
  match v with
  | JNull => false
  | JBool b => b
  | JInt z => negb (z =? 0)
  | JFloat q => negb (Qeq_bool q 0)
  | JStr s => negb (String.eqb s "")
  | JArr items => negb (bool_decide (items = []))
  | JObj fields => negb (bool_decide (fields = []))
  end.

(** [d.get(key)] on the items of a dict. *)
Fixpoint dict_get (key : string) (fields : list (string * json)) : option json :=
  match fields with
  | [] => None
  | (k, v) :: rest => if String.eqb k key then Some v else dict_get key rest
  end.

(** ** TaskProcessor (extend/task_processor.py) *)

Module TaskProcessor.

(** The default priority chain of [__init__]. *)
Definition default_queues : list string :=
  ["tasks:high"; "tasks:medium"; "tasks:low"; "tasks:default"].

Record fetched : Type := Fetched {
  f_task_id : json;
  f_task_data : list (string * json);
  f_queue : string;
  f_raw : string }.

Section WithParser.

(** [json.loads]: [None] stands for [JSONDecodeError]. *)
Variable json_loads : string -> option json.

(** The [for queue in self.queues] loop of [safe_fetch], from the queues
    still to visit.  A record that is not a dict makes [task_data.get]
    raise [AttributeError], which only the outer handler catches: the
    call returns None there and then. *)
Fixpoint safe_fetch_from (queues : list string) (processing_queue : string)
    (s : Redis.store) : option fetched * Redis.store :=
  match queues with
  | [] => (None, s)
  | queue :: rest =>
      match Redis.rpoplpush queue processing_queue s with
      | (None, s1) => safe_fetch_from rest processing_queue s1
      | (Some task_json, s1) =>
          if String.eqb task_json "" then
            safe_fetch_from rest processing_queue s1
          else
            match json_loads task_json with
            | None =>
                safe_fetch_from rest processing_queue
                  (Redis.lrem1 processing_queue task_json s1)
            | Some (JObj task_data) =>
                match dict_get "id" task_data with
                | Some task_id =>
                    if truthy task_id then
                      (Some (Fetched task_id task_data queue task_json), s1)
                    else safe_fetch_from rest processing_queue s1
                | None => safe_fetch_from rest processing_queue s1
                end
            | Some _ => (None, s1)
            end
      end
  end.

Definition safe_fetch (queues : list string) (processing_queue : string)
    (s : Redis.store) : option fetched * Redis.store :=
  safe_fetch_from queues processing_queue s.

(** [fetch_task]: BLPOP over the queues, then the parse.  The record is
    popped before it is looked at. *)
Definition fetch_task (queues : list string) (s : Redis.store)
  : option (json * list (string * json) * string) * Redis.store :=
  match Redis.blpop queues s with
  | (None, s1) => (None, s1)
  | (Some (queue_name, task_json), s1) =>
      match json_loads task_json with
      | None => (None, s1)
      | Some (JObj task_data) =>
          match dict_get "id" task_data with
          | Some task_id =>
              if truthy task_id then (Some (task_id, task_data, queue_name), s1)
              else (None, s1)
          | None => (None, s1)
          end
      | Some _ => (None, s1)
      end
  end.

End WithParser.

Definition remove_from_processing (processing_queue raw_task_json : string)
    (s : Redis.store) : Redis.store :=
  Redis.lrem1 processing_queue raw_task_json s.

(** [ack_task]: LREM of the re-serialised task, [json.dumps(task_data)]. *)
Definition ack_task (json_dumps : list (string * json) -> string)
    (processing_queue : string) (task_data : list (string * json))
    (s : Redis.store) : Redis.store :=
  Redis.lrem1 processing_queue (json_dumps task_data) s.

(** The producer side ([submit_task], produce_task.py): [RPUSH]. *)
Definition enqueue (queue_name raw : string) (s : Redis.store) : Redis.store :=
  Redis.rpush queue_name raw s.

End TaskProcessor.

(** ** CourseSystem (src/course_system.py): the worker

    The worker runs against a scripted environment: what each call of the
    Executor does and how long it takes, each draw of [random()], and whether
    the heartbeat thread can be started.  The world threads the store, the
    clock, a cursor into the script and the chronological trace of the calls
    made to the collaborators.

    The heartbeat thread runs beside the main thread; its writes are
    [RedisManager.heartbeat] at the instants [heartbeat_loop] visits.  They
    touch the [last_update] field of the state hash and the key
    [lock:task:<id>] only, neither of which the main thread reads, so the
    main thread is modelled on its own and the trace records where the
    heartbeat is started and joined. *)

Module CourseSystem.

Inductive event : Type :=
| EvExecute (task_data : json)
| EvSleep (seconds : Q)
| EvSync (task_id status : string) (data : gmap string Redis.hval)
| EvReport (task_id status : string)
| EvHeartbeatStart (task_id : string)
| EvHeartbeatStop (task_id : string)
| EvRelease (task_id owner_id : string)
| EvAck (processing_queue raw : string).

Inductive outcome (result : Type) : Type :=
| Returned (r : result) (took : Q)
| Raised (err : string) (took : Q).
Arguments Returned {result} r took.
Arguments Raised {result} err took.

Record env (result : Type) : Type := Env {
  execute : nat -> outcome result;
  draw : nat -> Q;
  thread_start : nat -> bool }.
Arguments Env {result} execute draw thread_start.
Arguments execute {result} e n.
Arguments draw {result} e n.
Arguments thread_start {result} e n.

(** The events of the [finally] block. *)
Definition closing (e : event) : bool :=
  match e with
  | EvHeartbeatStop _ | EvRelease _ _ | EvAck _ _ => true
  | _ => false
  end.

Definition is_execute (e : event) : bool :=
  match e with
  | EvExecute _ => true
  | _ => false
  end.

Definition is_sleep (e : event) : bool :=
  match e with
  | EvSleep _ => true
  | _ => false
  end.

(** A sleep, if the event is one, lasts at most [bound]. *)
Definition sleep_within (bound : Q) (e : event) : Prop :=
  match e with
  | EvSleep d => (d <= bound)%Q
  | _ => True
  end.

Record world : Type := World {
  store : Redis.store;
  now : Q;
  cursor : nat;
  trace : list event }.

Record t : Type := Make {
  worker_id : string;
  retry_manager : RetryManager.t }.

Definition emit (e : event) (w : world) : world :=
  World (store w) (now w) (cursor w) (trace w ++ [e]).

Definition advance (d : Q) (w : world) : world :=
  World (store w) (now w + d)%Q (cursor w) (trace w).

Definition next (w : world) : world :=
  World (store w) (now w) (S (cursor w)) (trace w).

Definition with_store (s : Redis.store) (w : world) : world :=
  World s (now w) (cursor w) (trace w).

Section Worker.

Variable result : Type.
Variable json_loads : string -> option json.
(** [json.dumps]: the text, or the message of the TypeError. *)
Variable json_dumps : result -> string + string.
(** How an id that is not a string prints in an f-string. *)
Variable format_value : json -> string.
Variable E : env result.
Variable self : t.

Definition id_text (task_id : json) : string :=
  match task_id with
  | JStr s => s
  | v => format_value v
  end.

Definition sync_state (task_id status : string)
    (data : gmap string Redis.hval) (w : world) : world :=
  emit (EvSync task_id status data)
    (with_store
       (StateSynchronizer.sync_state (now w) (worker_id self) task_id
          status data (store w)) w).

Definition report_result (task_id status : string) (w : world) : world :=
  emit (EvReport task_id status) w.

Definition release_lock (task_id : string) (w : world) : world :=
  emit (EvRelease task_id (worker_id self))
    (with_store
       (StateSynchronizer.release_lock (now w) task_id (worker_id self)
          (store w)) w).

Definition remove_from_processing (processing_queue raw : string)
    (w : world) : world :=
  emit (EvAck processing_queue raw)
    (with_store
       (TaskProcessor.remove_from_processing processing_queue raw (store w))
       w).

(** [wait_for_retry]: sleep for the computed backoff. *)
Definition wait_for_retry (current_retries : Z) (w : world) : world :=
  let d := RetryManager.get_backoff_time (retry_manager self)
             current_retries (draw E (cursor w)) in
  next (advance d (emit (EvSleep d) w)).

(** The [while True] loop of [_process_task_with_retry]; [fuel] bounds
    the number of Executor calls, [None] is fuel run out. *)
Fixpoint retry_loop (fuel : nat) (task_id : string) (task_data : json)
    (retries : Z) (w : world) : option ((result + string) * world) :=
  match fuel with
  | O => None
  | S fuel' =>
      let w1 := next (emit (EvExecute task_data) w) in
      match execute E (cursor w) with
      | Returned r took => Some (inl r, advance took w1)
      | Raised e took =>
          let w2 := advance took w1 in
          if RetryManager.should_retry (retry_manager self) retries then
            let w3 := wait_for_retry retries w2 in
            let retries' := retries + 1 in
            let w4 := sync_state task_id "retrying"
                        {["retry_count" := Redis.HInt retries']} w3 in
            retry_loop fuel' task_id task_data retries' w4
          else Some (inr e, w2)
      end
  end.

Definition process_task_with_retry (task_id : string) (task_data : json)
    (w : world) : option ((result + string) * world) :=
  retry_loop (S (Z.to_nat (RetryManager.max_retries (retry_manager self))))
    task_id task_data 0 w.

(** [state and state.get('status') == 'completed'] *)
Definition is_completed (state : gmap string Redis.hval) : bool :=
  match state !! "status" with
  | Some (Redis.HStr status) => String.eqb status "completed"
  | _ => false
  end.

(** The [finally] block of [_handle_task]. *)
Definition finalize (task_id processing_queue raw_json : string)
    (w : world) : world :=
  remove_from_processing processing_queue raw_json
    (release_lock task_id (emit (EvHeartbeatStop task_id) w)).

(** The [except Exception as e] block of the inner [try]. *)
Definition report_failure (task_id err : string) (w : world) : world :=
  report_result task_id "FAILURE"
    (sync_state task_id "failed" {["error" := Redis.HStr err]} w).

Definition handle_task (task_id : string) (task_data : json)
    (processing_queue raw_json : string) (w : world) : option world :=
  let state := StateSynchronizer.get_state task_id (store w) in
  if is_completed state then
    Some (remove_from_processing processing_queue raw_json w)
  else
    match StateSynchronizer.acquire_lock (now w) task_id (worker_id self)
            300 (store w) with
    | (false, s1) =>
        Some (remove_from_processing processing_queue raw_json
                (with_store s1 w))
    | (true, s1) =>
        let w1 := with_store s1 w in
        if negb (thread_start E (cursor w1)) then
          (* hb_thread.start() raises: the outer handler logs and passes *)
          Some (next w1)
        else
          let w2 := emit (EvHeartbeatStart task_id) (next w1) in
          let w3 := sync_state task_id "running" ∅ w2 in
          match process_task_with_retry task_id task_data w3 with
          | None => None
          | Some (inl r, w4) =>
              match json_dumps r with
              | inl result_json =>
                  let w5 := sync_state task_id "completed"
                              {["result" := Redis.HStr result_json]} w4 in
                  Some (finalize task_id processing_queue raw_json
                          (report_result task_id "SUCCESS" w5))
              | inr err =>
                  Some (finalize task_id processing_queue raw_json
                          (report_failure task_id err w4))
              end
          | Some (inr err, w4) =>
              Some (finalize task_id processing_queue raw_json
                      (report_failure task_id err w4))
          end
    end.

(** [_process_leftovers]: the loop over the head of the processing list;
    [None] is fuel run out. *)
Fixpoint process_leftovers (fuel : nat) (processing_queue : string)
    (w : world) : option world :=
  match fuel with
  | O => None
  | S fuel' =>
      match Redis.lindex0 processing_queue (store w) with
      | None => Some w
      | Some task_json =>
          if String.eqb task_json "" then Some w
          else
            match json_loads task_json with
            | None =>
                process_leftovers fuel' processing_queue
                  (remove_from_processing processing_queue task_json w)
            | Some (JObj task_data) =>
                match dict_get "id" task_data with
                | Some task_id =>
                    if truthy task_id then
                      match handle_task (id_text task_id) (JObj task_data)
                              processing_queue task_json w with
                      | Some w' =>
                          process_leftovers fuel' processing_queue w'
                      | None => None
                      end
                    else
                      process_leftovers fuel' processing_queue
                        (remove_from_processing processing_queue
                           task_json w)
                | None =>
                    process_leftovers fuel' processing_queue
                      (remove_from_processing processing_queue task_json w)
                end
            | Some _ =>
                (* AttributeError: logged, the loop goes round again *)
                process_leftovers fuel' processing_queue w
            end
      end
  end.

(** The trace [k] failed attempts leave when each is retried: the call, the
    sleep for the backoff of the count before the increment, and the
    [retrying] state carrying the incremented count.  [retries] is the count
    before the first of them and [c] the cursor at its call. *)
Fixpoint retry_rounds (task_id : string) (task_data : json) (k : nat)
    (retries : Z) (c : nat) : list event :=
  match k with
  | O => []
  | S k' =>
      EvExecute task_data
      :: EvSleep (RetryManager.get_backoff_time (retry_manager self) retries
                    (draw E (S c)))
      :: EvSync task_id "retrying" {["retry_count" := Redis.HInt (retries + 1)]}
      :: retry_rounds task_id task_data k' (retries + 1) (S (S c))
  end.

(** The body of the [while self.worker_running] loop of [start_worker]:
    a fetch, then either the idle sleep of one second or the handling of
    the task. *)
Definition worker_step (queues : list string) (processing_queue : string)
    (w : world) : option world :=
  match TaskProcessor.safe_fetch json_loads queues processing_queue (store w) with
  | (None, s1) => Some (advance 1 (with_store s1 w))
  | (Some f, s1) =>
      handle_task (id_text (TaskProcessor.f_task_id f))
        (JObj (TaskProcessor.f_task_data f)) processing_queue
        (TaskProcessor.f_raw f) (with_store s1 w)
  end.

End Worker.

(** [_heartbeat_loop]: a beat at once and then one every ten seconds, for
    as many rounds as the stop event stays unset. *)
Fixpoint heartbeat_loop (rounds : nat) (start : Q) (task_id : string)
    (s : Redis.store) : Redis.store :=
  match rounds with
  | O => s
  | S rounds' =>
      heartbeat_loop rounds' (start + 10)%Q task_id
        (RedisManager.heartbeat start task_id s)
  end.

End CourseSystem.

(** ** GrpcClient (extend/grpc_client.py) *)

Module GrpcClient.

Record response : Type := Response {
  resp_task_id : string;
  resp_received : bool }.

(** What the stub does with the request: it raises, or it streams back
    acknowledgments. *)
Inductive rpc_reply : Type :=
| RpcRaises
| RpcResponses (responses : list response).

(** The [for resp in responses] loop with its early return. *)
Fixpoint first_ack (task_id : string) (responses : list response) : bool :=
  match responses with
  | [] => false
  | resp :: rest =>
      if String.eqb (resp_task_id resp) task_id && resp_received resp then true
      else first_ack task_id rest
  end.

(** [report_result]: [has_stub] is [self.stub] being set, [serialisable]
    is [json.dumps(result_data)] not raising. *)
Definition report_result (has_stub serialisable : bool) (reply : rpc_reply)
    (task_id : string) : bool :=
  if negb has_stub then false
  else if negb serialisable then false
  else
    match reply with
    | RpcRaises => false
    | RpcResponses responses => first_ack task_id responses
    end.

End GrpcClient.

(** ** The producer (produce_task.py and [submit_task]) *)

Module Producer.

Section WithJson.

Variable json_loads : string -> option json.
Variable json_dumps : list (string * json) -> string.
(** How the client decodes a field value that was not written as text. *)
Variable render : Redis.hval -> string.


(** [CourseSystem.submit_task]: an id is added when the key is missing, the
    serialised task is pushed to the tail of the queue, the id is returned. *)
Definition submit_task (uuid4 : string) (task_data : list (string * json))
    (queue_name : string) (s : Redis.store) : option json * Redis.store :=
  let task_data' :=
    match dict_get "id" task_data with
    | Some _ => task_data
    | None => task_data ++ [("id", JStr uuid4)]
    end in
  (dict_get "id" task_data',
   Redis.rpush queue_name (json_dumps task_data') s).

(** The default of [queue_name]. *)
Definition submit_task_default_queue : string := "course_tasks:default".


End WithJson.

End Producer.

(** ** Where a record is

    A record is placed once when no list holds it twice and no two lists
    hold it.  What the queue commands keep for every store is the number of
    copies of a record; that each record is placed once they keep only when
    no text is pushed while a copy of it is still in some list. *)

Module Placement.

(** Records are told apart by their serialised text, as LREM does. *)
Definition absent (raw : string) (s : Redis.store) : Prop :=
  forall k, raw ∉ Redis.lrange k s.

(** The number of copies of [raw] in a list, and in the lists of the store
    named by [keys]. *)
Fixpoint count_in (raw : string) (l : list string) : nat :=
  match l with
  | [] => 0%nat
  | x :: l' => ((if decide (x = raw) then 1 else 0) + count_in raw l')%nat
  end.

Fixpoint copies (keys : list string) (raw : string) (s : Redis.store) : nat :=
  match keys with
  | [] => 0%nat
  | k :: keys' => (count_in raw (Redis.lrange k s) + copies keys' raw s)%nat
  end.

Definition placed_once (s : Redis.store) : Prop :=
  (forall k, NoDup (Redis.lrange k s)) /\
  (forall k1 k2 raw,
     raw ∈ Redis.lrange k1 s -> raw ∈ Redis.lrange k2 s -> k1 = k2).

(** The stores the queue commands reach when the producers push a text only
    while no copy of it is in any list.  RPUSH itself checks nothing: the
    side condition of [reach_enqueue] is a discipline of the producers, not
    a property of the code. *)
Inductive reachable_fresh : Redis.store -> Prop :=
| reach_init s :
    Redis.lsts s = ∅ -> reachable_fresh s
| reach_enqueue s queue raw :
    reachable_fresh s -> absent raw s ->
    reachable_fresh (TaskProcessor.enqueue queue raw s)
| reach_move s src dst :
    reachable_fresh s -> reachable_fresh (snd (Redis.rpoplpush src dst s))
| reach_remove s processing_queue raw :
    reachable_fresh s ->
    reachable_fresh (TaskProcessor.remove_from_processing processing_queue raw s)
| reach_other s s' :
    reachable_fresh s -> Redis.lsts s' = Redis.lsts s -> reachable_fresh s'.

End Placement.

(** ** Sample data for the worked instances *)

Module Sample.

Definition quote : string := String (Ascii.ascii_of_nat 34) EmptyString.

(** [{"id": "t1"}], [{"id": "t2"}], [{"phase": "x"}] and [[1]] as the
    producer would serialise them. *)
Definition raw_t1 : string :=
  "{" +:+ quote +:+ "id" +:+ quote +:+ ": " +:+ quote +:+ "t1" +:+ quote +:+ "}".
Definition raw_t2 : string :=
  "{" +:+ quote +:+ "id" +:+ quote +:+ ": " +:+ quote +:+ "t2" +:+ quote +:+ "}".
Definition raw_noid : string :=
  "{" +:+ quote +:+ "phase" +:+ quote +:+ ": " +:+ quote +:+ "x" +:+ quote +:+ "}".
Definition raw_array : string := "[1]".

(** [json.loads] on the four records above; any other text is taken to be
    malformed. *)
Definition loads (raw : string) : option json :=
  if String.eqb raw raw_t1 then Some (JObj [("id", JStr "t1")])
  else if String.eqb raw raw_t2 then Some (JObj [("id", JStr "t2")])
  else if String.eqb raw raw_noid then Some (JObj [("phase", JStr "x")])
  else if String.eqb raw raw_array then Some (JArr [JInt 1])
  else None.

(** Results are texts that serialise to themselves. *)
Definition dumps (r : string) : string + string := inl r.

Definition format_value (v : json) : string := "?".

Definition worker : CourseSystem.t :=
  CourseSystem.Make "w1" RetryManager.default.

(** An Executor that fails on its first [fails] calls and then returns. *)
Definition flaky (fails : nat) : CourseSystem.env string :=
  CourseSystem.Env
    (fun n => if bool_decide (n < 2 * fails)%nat
              then CourseSystem.Raised "boom" 1
              else CourseSystem.Returned "done" 1)
    (fun _ => 0%Q)
    (fun _ => true).

(** The same, on a host that cannot start another thread. *)
Definition no_threads : CourseSystem.env string :=
  CourseSystem.Env (fun _ => CourseSystem.Returned "done" 1)
    (fun _ => 0%Q) (fun _ => false).

Definition world0 (s : Redis.store) : CourseSystem.world :=
  CourseSystem.World s 0 0 [].

Definition processing : string := "tasks:processing:w1".

Definition task_t1 : json := JObj [("id", JStr "t1")].

(** [t1] enqueued in [tasks:default] and fetched by the worker. *)
Definition fetched_t1 : Redis.store :=
  snd (TaskProcessor.safe_fetch loads TaskProcessor.default_queues processing
         (TaskProcessor.enqueue "tasks:default" raw_t1 Redis.empty)).

(** The same while worker [w2] holds the lock of [t1]. *)
Definition fetched_t1_locked : Redis.store :=
  snd (StateSynchronizer.acquire_lock 0 "t1" "w2" 300 fetched_t1).

(** [t1] fetched again after a worker [w0] has recorded it as completed. *)
Definition fetched_t1_completed : Redis.store :=
  StateSynchronizer.sync_state 0 "w0" "t1" "completed"
    {["result" := Redis.HStr "done"]} fetched_t1.

(** An array in the high queue and [t1] in the medium queue. *)
Definition array_then_t1 : Redis.store :=
  TaskProcessor.enqueue "tasks:medium" raw_t1
    (TaskProcessor.enqueue "tasks:high" raw_array Redis.empty).

(** An object without id in the high queue and [t1] in the medium queue. *)
Definition noid_then_t1 : Redis.store :=
  TaskProcessor.enqueue "tasks:medium" raw_t1
    (TaskProcessor.enqueue "tasks:high" raw_noid Redis.empty).

End Sample.

(** * Properties *)

(** ** The store *)

Section StoreFacts.

Implicit Types (s : Redis.store) (k : string) (l : list string).

Lemma unexpired_spec (now exp : Q) :
  Redis.unexpired now exp = true <-> (now <= exp)%Q.
Proof. apply Qle_bool_iff. Qed.

Lemma unexpired_lt (now exp : Q) :
  (now < exp)%Q -> Redis.unexpired now exp = true.
Proof. intros H. apply unexpired_spec, Qlt_le_weak, H. Qed.

Lemma unexpired_false_iff (now exp : Q) :
  Redis.unexpired now exp = false <-> (exp < now)%Q.
Proof.
  unfold Redis.unexpired. destruct (Qle_bool now exp) eqn:E.
  - apply Qle_bool_iff in E. split; [discriminate | intros H; exfalso].
    apply (Qlt_irrefl exp). eapply Qlt_le_trans; eauto.
  - split; [intros _ | reflexivity].
    apply Qnot_le_lt. intros H. apply Qle_bool_iff in H. congruence.
Qed.

Lemma accepts_ex_iff (now : Q) (ex : Z) :
  Redis.accepts_ex now ex = true <->
  0 < ex /\ ex <= Redis.max_ms / 1000 /\
  0 < ex * 1000 + Redis.now_ms now <= Redis.max_ms.
Proof. unfold Redis.accepts_ex. apply bool_decide_eq_true. Qed.

Lemma accepts_ex_pos (now : Q) (ex : Z) :
  Redis.accepts_ex now ex = true -> 0 < ex.
Proof. intros H. apply accepts_ex_iff in H. tauto. Qed.

Lemma lrange_put_list k k' l s :
  Redis.lrange k' (Redis.put_list k l s) = if decide (k = k') then l else Redis.lrange k' s.
Proof.
  unfold Redis.lrange, Redis.put_list; simpl.
  destruct (decide (k = k')) as [->|Hne].
  - destruct l; [by rewrite lookup_delete_eq | by rewrite lookup_insert_eq].
  - destruct l; [by rewrite lookup_delete_ne | by rewrite lookup_insert_ne].
Qed.

Lemma lrange_put_list_eq k l s : Redis.lrange k (Redis.put_list k l s) = l.
Proof. rewrite lrange_put_list. by rewrite decide_True. Qed.

Lemma lrange_put_list_ne k k' l s :
  k ≠ k' -> Redis.lrange k' (Redis.put_list k l s) = Redis.lrange k' s.
Proof. intros. rewrite lrange_put_list. by rewrite decide_False. Qed.

Lemma strs_put_list k l s : Redis.strs (Redis.put_list k l s) = Redis.strs s.
Proof. reflexivity. Qed.

Lemma hshs_put_list k l s : Redis.hshs (Redis.put_list k l s) = Redis.hshs s.
Proof. reflexivity. Qed.

Lemma pubs_put_list k l s : Redis.pubs (Redis.put_list k l s) = Redis.pubs s.
Proof. reflexivity. Qed.

(** The two outcomes of [RPOPLPUSH]. *)
Lemma rpoplpush_empty src dst s :
  Redis.lrange src s = [] -> Redis.rpoplpush src dst s = (None, s).
Proof. unfold Redis.rpoplpush. by intros ->. Qed.

Lemma rpoplpush_snoc src dst s init x :
  Redis.lrange src s = init ++ [x] ->
  Redis.rpoplpush src dst s =
    (Some x, Redis.put_list dst (x :: Redis.lrange dst (Redis.put_list src init s))
               (Redis.put_list src init s)).
Proof.
  unfold Redis.rpoplpush. intros ->.
  rewrite reverse_snoc. by rewrite reverse_involutive.
Qed.

Lemma list_snoc_cases l : l = [] \/ exists init x, l = init ++ [x].
Proof.
  destruct l as [|a l] using rev_ind; [by left | right; eauto].
Qed.

End StoreFacts.

(** ** The lock *)

Section LockFacts.

Lemma string_length_app (a b : string) :
  String.length (a +:+ b) = (String.length a + String.length b)%nat.
Proof. induction a as [|c a IH]; simpl; [reflexivity | by rewrite IH]. Qed.

(** The key [acquire_lock] of the synchronizer sets is never the key the
    heartbeat refreshes. *)
Lemma lock_keys_differ (task_id : string) :
  StateSynchronizer.lock_key task_id ≠ RedisManager.lock_key task_id.
Proof.
  unfold StateSynchronizer.lock_key, RedisManager.lock_key. simpl.
  intros H. injection H as H.
  apply (f_equal String.length) in H. simpl in H. lia.
Qed.

Lemma strs_heartbeat_other now task_id k s :
  k ≠ RedisManager.lock_key task_id ->
  Redis.strs (RedisManager.heartbeat now task_id s) !! k = Redis.strs s !! k.
Proof.
  intros Hk. unfold RedisManager.heartbeat.
  destruct (decide (task_id = "")); [reflexivity |].
  unfold Redis.expire. cbn [Redis.strs Redis.hset].
  destruct (Redis.strs s !! RedisManager.lock_key task_id) as [[v exp]|];
    [| reflexivity].
  destruct (Redis.unexpired now exp); [| reflexivity].
  rewrite bool_decide_eq_false_2 by lia. cbn [Redis.strs].
  by rewrite lookup_insert_ne.
Qed.

Lemma lsts_heartbeat now task_id s :
  Redis.lsts (RedisManager.heartbeat now task_id s) = Redis.lsts s.
Proof.
  unfold RedisManager.heartbeat.
  destruct (decide (task_id = "")); [reflexivity |].
  unfold Redis.expire. cbn [Redis.strs Redis.hset].
  destruct (Redis.strs s !! RedisManager.lock_key task_id) as [[v exp]|];
    [| reflexivity].
  destruct (Redis.unexpired now exp); [| reflexivity].
  by rewrite bool_decide_eq_false_2 by lia.
Qed.

Lemma strs_heartbeat_loop_other rounds start task_id k s :
  k ≠ RedisManager.lock_key task_id ->
  Redis.strs (CourseSystem.heartbeat_loop rounds start task_id s) !! k
  = Redis.strs s !! k.
Proof.
  intros Hk. revert start s.
  induction rounds as [|n IH]; intros start s; simpl; [reflexivity |].
  rewrite IH. by apply strs_heartbeat_other.
Qed.

Lemma acquire_lock_unfold now resource_id owner_id ttl s :
  Redis.accepts_ex now ttl = true ->
  StateSynchronizer.acquire_lock now resource_id owner_id ttl s =
    if Redis.live now (StateSynchronizer.lock_key resource_id) s then (false, s)
    else (true,
          Redis.Store
            (<[StateSynchronizer.lock_key resource_id :=
                 (owner_id, (now + inject_Z ttl)%Q)]> (Redis.strs s))
            (Redis.lsts s) (Redis.hshs s) (Redis.pubs s)).
Proof.
  intros Httl. unfold StateSynchronizer.acquire_lock, Redis.set_nx_ex.
  rewrite Httl. cbn [negb].
  by destruct (Redis.live now _ s).
Qed.

Lemma acquire_lock_rejected now resource_id owner_id ttl s :
  Redis.accepts_ex now ttl = false ->
  StateSynchronizer.acquire_lock now resource_id owner_id ttl s = (false, s).
Proof.
  intros Httl. unfold StateSynchronizer.acquire_lock, Redis.set_nx_ex.
  by rewrite Httl.
Qed.

Lemma acquire_lock_accepted now resource_id owner_id ttl s :
  fst (StateSynchronizer.acquire_lock now resource_id owner_id ttl s) = true ->
  Redis.accepts_ex now ttl = true.
Proof.
  destruct (Redis.accepts_ex now ttl) eqn:Httl; [done |].
  by rewrite acquire_lock_rejected.
Qed.

Lemma acquire_lock_live now resource_id owner_id ttl s :
  Redis.live now (StateSynchronizer.lock_key resource_id) s = true ->
  StateSynchronizer.acquire_lock now resource_id owner_id ttl s = (false, s).
Proof.
  intros Hlive. destruct (Redis.accepts_ex now ttl) eqn:Httl.
  - rewrite acquire_lock_unfold by done. by rewrite Hlive.
  - by apply acquire_lock_rejected.
Qed.

Lemma acquire_lock_refused now resource_id owner_id ttl s :
  fst (StateSynchronizer.acquire_lock now resource_id owner_id ttl s) = false ->
  snd (StateSynchronizer.acquire_lock now resource_id owner_id ttl s) = s.
Proof.
  destruct (Redis.accepts_ex now ttl) eqn:Httl.
  - rewrite acquire_lock_unfold by done.
    destruct (Redis.live now _ s); [reflexivity | discriminate].
  - by rewrite acquire_lock_rejected.
Qed.

(** C6 (amended). For a TTL the server accepts (a positive number of
    seconds whose expiry instant in milliseconds fits in 64 bits),
    [acquire_lock] answers true exactly when no live lock record exists for
    the resource at the instant of the call.  It then is the one conditional
    SET command: afterwards GET of the lock key answers the owner at every
    instant up to [now + ttl] and nothing after it, and every other key,
    list, hash and publication is as before.  When a live record exists the
    answer is false and the store is the one it was given.  For a TTL the
    server rejects (zero, negative, or too large) the answer is false and
    the store is the one it was given, lock or no lock. *)
Theorem acquire_lock_iff_no_live_lock
    (now : Q) (resource_id owner_id : string) (ttl : Z) (s : Redis.store) :
  let key := StateSynchronizer.lock_key resource_id in
  let r := StateSynchronizer.acquire_lock now resource_id owner_id ttl s in
  (Redis.accepts_ex now ttl = true ->
     (fst r = true <-> Redis.live now key s = false) /\
     (Redis.live now key s = false ->
        r = (true, snd (Redis.set_nx_ex now key owner_id ttl s)) /\
        (forall t, (t <= now + inject_Z ttl)%Q ->
           Redis.get t key (snd r) = Some owner_id) /\
        (forall t, (now + inject_Z ttl < t)%Q -> Redis.get t key (snd r) = None) /\
        (forall k, k ≠ key -> Redis.strs (snd r) !! k = Redis.strs s !! k) /\
        Redis.lsts (snd r) = Redis.lsts s /\
        Redis.hshs (snd r) = Redis.hshs s /\
        Redis.pubs (snd r) = Redis.pubs s) /\
     (Redis.live now key s = true -> r = (false, s))) /\
  (Redis.accepts_ex now ttl = false -> r = (false, s)) /\
  (ttl <= 0 -> r = (false, s)) /\
  (Redis.max_ms < ttl * 1000 + Redis.now_ms now -> r = (false, s)).
Proof.
  intros key r. subst r. split; [| split; [| split]].
  - intros Httl. rewrite acquire_lock_unfold by done. fold key.
    unfold Redis.set_nx_ex. rewrite Httl. cbn [negb].
    destruct (Redis.live now key s) eqn:Hlive; cbn [fst snd].
    + repeat split; try discriminate; done.
    + split; [done |]. split; [| done]. intros _.
      split; [reflexivity |].
      split; [| split; [| split; [| done]]].
      * intros t Ht. unfold Redis.get. cbn [Redis.strs].
        rewrite lookup_insert_eq.
        apply unexpired_spec in Ht. by rewrite Ht.
      * intros t Ht. unfold Redis.get. cbn [Redis.strs].
        rewrite lookup_insert_eq.
        apply unexpired_false_iff in Ht. by rewrite Ht.
      * intros k Hk. cbn [Redis.strs]. by rewrite lookup_insert_ne.
  - apply acquire_lock_rejected.
  - intros Httl. apply acquire_lock_rejected.
    apply not_true_is_false. intros H. apply accepts_ex_iff in H. lia.
  - intros Httl. apply acquire_lock_rejected.
    apply not_true_is_false. intros H. apply accepts_ex_iff in H. lia.
Qed.

Lemma acquire_lock_iff_no_live_lock_witness :
  fst (StateSynchronizer.acquire_lock 0 "t1" "w1" 300 Redis.empty) = true /\
  Redis.get 300 (StateSynchronizer.lock_key "t1")
    (snd (StateSynchronizer.acquire_lock 0 "t1" "w1" 300 Redis.empty)) = Some "w1" /\
  StateSynchronizer.acquire_lock 0 "t1" "w1" 0 Redis.empty = (false, Redis.empty).
Proof.
  pose proof (acquire_lock_iff_no_live_lock 0 "t1" "w1" 300 Redis.empty)
    as (Hacc & _).
  pose proof (acquire_lock_iff_no_live_lock 0 "t1" "w1" 0 Redis.empty)
    as (_ & _ & Hzero & _).
  destruct Hacc as (Hiff & Hfree & _); [vm_compute; reflexivity |].
  destruct Hfree as (_ & Hget & _); [vm_compute; reflexivity |].
  split; [apply Hiff; vm_compute; reflexivity |].
  split; [apply Hget; vm_compute; discriminate |].
  apply Hzero. lia.
Defined.

(** C6, as stated, fails: no lock record exists for [t1], yet
    [acquire_lock] answers false, because the server refuses a TTL of
    [2^63 - 1] seconds, and likewise one of 0 seconds. *)
Lemma acquire_lock_ttl_counterexample :
  Redis.live 0 (StateSynchronizer.lock_key "t1") Redis.empty = false /\
  StateSynchronizer.acquire_lock 0 "t1" "w1" (2 ^ 63 - 1) Redis.empty
    = (false, Redis.empty) /\
  StateSynchronizer.acquire_lock 0 "t1" "w1" 0 Redis.empty
    = (false, Redis.empty).
Proof. vm_compute. done. Qed.

(** C9. [release_lock] deletes the lock record when the owner it reads back
    is [owner_id]; when another owner is stored, or no live record is there,
    the store is the one it was given. *)
Theorem release_lock_only_by_owner
    (now : Q) (resource_id owner_id : string) (s : Redis.store) :
  let key := StateSynchronizer.lock_key resource_id in
  let s' := StateSynchronizer.release_lock now resource_id owner_id s in
  (Redis.get now key s = Some owner_id /\
   s' = Redis.delete key s /\ Redis.strs s' !! key = None /\
   Redis.get now key s' = None)
  \/ (Redis.get now key s ≠ Some owner_id /\ s' = s).
Proof.
  intros key s'. subst s'. unfold StateSynchronizer.release_lock. fold key.
  destruct (Redis.get now key s) as [val|] eqn:Hget.
  - destruct (decide (val = owner_id)) as [->|Hne].
    + left. unfold Redis.get, Redis.delete. cbn [Redis.strs].
      rewrite lookup_delete_eq. done.
    + right. split; [congruence | done].
  - right. done.
Qed.

(** C1. The heartbeat never writes to the lock record the worker's
    [acquire_lock] created: [StateSynchronizer.acquire_lock] sets
    [lock:<id>], [RedisManager.heartbeat] sends EXPIRE to [lock:task:<id>].
    Whatever the number of beats, the record under [lock:<id>] keeps the
    expiry it was given; a lock taken at instant 0 for 300 seconds is still
    there at instant 300 and gone at instant 301 although a beat ran every
    ten seconds up to instant 300, whereas the lock of
    [RedisManager.acquire_lock] is alive there. *)
Theorem heartbeat_misses_acquired_lock :
  (forall rounds start task_id s,
     Redis.strs (CourseSystem.heartbeat_loop rounds start task_id s)
       !! StateSynchronizer.lock_key task_id
     = Redis.strs s !! StateSynchronizer.lock_key task_id) /\
  (let s1 := snd (StateSynchronizer.acquire_lock 0 "t1" "w1" 300 Redis.empty) in
   let s2 := CourseSystem.heartbeat_loop 31 0 "t1" s1 in
   Redis.live 0 (StateSynchronizer.lock_key "t1") s1 = true /\
   Redis.live 300 (StateSynchronizer.lock_key "t1") s2 = true /\
   Redis.live 301 (StateSynchronizer.lock_key "t1") s2 = false) /\
  (let s1 := snd (RedisManager.acquire_lock 0 "w1" "t1" 300 Redis.empty) in
   let s2 := CourseSystem.heartbeat_loop 31 0 "t1" s1 in
   Redis.live 301 (RedisManager.lock_key "t1") s2 = true).
Proof.
  split; [| split].
  - intros. apply strs_heartbeat_loop_other, lock_keys_differ.
  - vm_compute. done.
  - vm_compute. done.
Qed.

End LockFacts.

(** ** The retry policy *)

Section RetryPolicyFacts.

Lemma pow2_pos (n : Z) : (0 < 2 ^ n)%Q.
Proof. apply Qpower_0_lt. reflexivity. Qed.

Lemma pow2_succ (n : Z) : (2 ^ (n + 1) == 2 ^ n * 2)%Q.
Proof. rewrite Qpower_plus; [reflexivity | discriminate]. Qed.

Lemma delay_of_nonneg self n :
  (0 <= RetryManager.base_delay self)%Q -> (0 <= RetryManager.delay_of self n)%Q.
Proof.
  intros Hb. unfold RetryManager.delay_of.
  apply Qmult_le_0_compat; [done | apply Qlt_le_weak, pow2_pos].
Qed.

Lemma delay_of_mono self n :
  (0 <= RetryManager.base_delay self)%Q ->
  (RetryManager.delay_of self n <= RetryManager.delay_of self (n + 1))%Q.
Proof.
  intros Hb. unfold RetryManager.delay_of. rewrite pow2_succ.
  pose proof (pow2_pos n) as Hp. nra.
Qed.

(** C8. With a base delay that is not negative and a draw [u] of [random()]
    in [0, 1]: the jitter is [u] times a tenth of [base_delay * 2^n], so it
    lies between 0 and that tenth; the backoff is delay plus jitter capped at
    [max_delay], hence never above [max_delay]; its least possible value is
    the capped delay, which does not decrease from one attempt count to the
    next. *)
Theorem backoff_capped_and_monotone (self : RetryManager.t) (n : Z) (u : Q) :
  (0 <= RetryManager.base_delay self)%Q -> (0 <= u)%Q -> (u <= 1)%Q ->
  let d := (RetryManager.base_delay self * 2 ^ n)%Q in
  let j := RetryManager.jitter_of self n u in
  (j == u * ((1 # 10) * d))%Q /\
  (0 <= j)%Q /\ (j <= (1 # 10) * d)%Q /\
  (RetryManager.get_backoff_time self n u == Qmin (d + j) (RetryManager.max_delay self))%Q /\
  (RetryManager.get_backoff_time self n u <= RetryManager.max_delay self)%Q /\
  (RetryManager.backoff_lower_bound self n == Qmin d (RetryManager.max_delay self))%Q /\
  (RetryManager.backoff_lower_bound self n <= RetryManager.get_backoff_time self n u)%Q /\
  (RetryManager.backoff_lower_bound self n <= RetryManager.backoff_lower_bound self (n + 1))%Q.
Proof.
  intros Hb Hu0 Hu1 d j.
  pose proof (delay_of_nonneg self n Hb) as Hd.
  pose proof (delay_of_mono self n Hb) as Hm.
  assert (Hj : (j == u * ((1 # 10) * d))%Q).
  { subst j d. unfold RetryManager.jitter_of, RetryManager.uniform, RetryManager.delay_of. ring. }
  fold (RetryManager.delay_of self n) in d. 
  assert (Hj0 : (0 <= j)%Q) by (rewrite Hj; subst d; nra).
  assert (Hj1 : (j <= (1 # 10) * d)%Q) by (rewrite Hj; subst d; nra).
  assert (Hlb : forall m, (RetryManager.backoff_lower_bound self m ==
                  Qmin (RetryManager.delay_of self m) (RetryManager.max_delay self))%Q).
  { intros m. unfold RetryManager.backoff_lower_bound, RetryManager.get_backoff_time,
      RetryManager.jitter_of, RetryManager.uniform.
    apply Q.min_compat; [ring | reflexivity]. }
  split; [exact Hj |]. split; [exact Hj0 |]. split; [exact Hj1 |].
  split; [reflexivity |].
  split; [apply Q.le_min_r |].
  split; [apply Hlb |].
  split.
  - rewrite Hlb. unfold RetryManager.get_backoff_time. fold j.
    apply Q.min_le_compat_r. subst d. lra.
  - rewrite !Hlb. apply Q.min_le_compat_r. exact Hm.
Qed.

Lemma backoff_capped_and_monotone_witness :
  (RetryManager.get_backoff_time RetryManager.default 2 (1 # 2) <= 60)%Q /\
  (RetryManager.backoff_lower_bound RetryManager.default 2
   <= RetryManager.backoff_lower_bound RetryManager.default (2 + 1))%Q.
Proof.
  destruct (backoff_capped_and_monotone RetryManager.default 2 (1 # 2))
    as (_ & _ & _ & _ & Hcap & _ & _ & Hmono).
  - discriminate.
  - discriminate.
  - discriminate.
  - split; [exact Hcap | exact Hmono].
Defined.

End RetryPolicyFacts.

(** ** The reliable queue *)

Section QueueFacts.

Import Placement.

Implicit Types (s : Redis.store) (k : string) (l : list string).

Lemma lrange_ext s s' k : Redis.lsts s' = Redis.lsts s -> Redis.lrange k s' = Redis.lrange k s.
Proof. unfold Redis.lrange. by intros ->. Qed.

Lemma remove_first_sublist v l : sublist (Redis.remove_first v l) l.
Proof.
  induction l as [|x l IH]; simpl; [constructor |].
  destruct (decide (x = v)); [by apply sublist_cons | by apply sublist_skip].
Qed.

Lemma remove_first_other v r l : r ≠ v -> r ∈ l -> r ∈ Redis.remove_first v l.
Proof.
  intros Hne. induction l as [|x l IH]; simpl; [done |].
  rewrite elem_of_cons. intros [->|Hin].
  - rewrite decide_False by done. by left.
  - destruct (decide (x = v)); [done | right; auto].
Qed.

Lemma remove_first_head v l : Redis.remove_first v (v :: l) = l.
Proof. simpl. by rewrite decide_True. Qed.

Lemma placed_once_put k l s :
  placed_once s -> NoDup l ->
  (forall r, r ∈ l -> r ∈ Redis.lrange k s \/ absent r s) ->
  placed_once (Redis.put_list k l s).
Proof.
  intros [Hnd Huniq] Hl Hsrc. split.
  - intros k'. rewrite lrange_put_list. case_decide; [done | apply Hnd].
  - intros k1 k2 r. rewrite !lrange_put_list.
    destruct (decide (k = k1)) as [<-|H1], (decide (k = k2)) as [<-|H2];
      try done.
    + intros Hin1 Hin2. destruct (Hsrc r Hin1) as [Hk|Habs].
      * eauto.
      * by destruct (Habs k2).
    + intros Hin1 Hin2. destruct (Hsrc r Hin2) as [Hk|Habs].
      * eauto.
      * by destruct (Habs k1).
    + apply Huniq.
Qed.

Lemma placed_once_init s : Redis.lsts s = ∅ -> placed_once s.
Proof.
  intros He. unfold placed_once, Redis.lrange. rewrite He.
  split; intros *; rewrite ?lookup_empty; simpl; [constructor | by intros ?%elem_of_nil].
Qed.

Lemma placed_once_enqueue queue raw s :
  placed_once s -> absent raw s -> placed_once (TaskProcessor.enqueue queue raw s).
Proof.
  intros Hp Habs. unfold TaskProcessor.enqueue, Redis.rpush.
  apply placed_once_put; [done | |].
  - apply NoDup_app. split; [apply Hp |]. split; [| apply NoDup_singleton].
    intros x Hx ->%list_elem_of_singleton. by destruct (Habs queue).
  - intros r [Hr| ->%list_elem_of_singleton]%elem_of_app; [by left | by right].
Qed.

Lemma placed_once_remove pq raw s :
  placed_once s -> placed_once (TaskProcessor.remove_from_processing pq raw s).
Proof.
  intros Hp. unfold TaskProcessor.remove_from_processing, Redis.lrem1.
  pose proof (remove_first_sublist raw (Redis.lrange pq s)) as Hsub.
  apply placed_once_put; [done | |].
  - eapply sublist_NoDup; [apply Hp | exact Hsub].
  - intros r Hr. left. eapply elem_of_sublist; eauto.
Qed.

Lemma placed_once_move src dst s :
  placed_once s -> placed_once (snd (Redis.rpoplpush src dst s)).
Proof.
  intros Hp.
  destruct (list_snoc_cases (Redis.lrange src s)) as [He|(init & x & He)].
  - by rewrite rpoplpush_empty.
  - rewrite (rpoplpush_snoc _ _ _ _ _ He). cbn [snd].
    pose proof (proj1 Hp src) as Hnd. rewrite He in Hnd.
    apply NoDup_app in Hnd as (Hni & Hx & _).
    assert (Hp1 : placed_once (Redis.put_list src init s)).
    { apply placed_once_put; [done | done |].
      intros r Hr. left. rewrite He. apply elem_of_app. by left. }
    assert (Habs : absent x (Redis.put_list src init s)).
    { intros k. rewrite lrange_put_list. case_decide as Hk.
      - intros Hin. apply (Hx x Hin). by apply list_elem_of_singleton.
      - intros Hin. apply Hk. apply (proj2 Hp src k x); [| done].
        rewrite He. apply elem_of_app. right. by apply list_elem_of_singleton. }
    apply placed_once_put; [done | |].
    + apply NoDup_cons. split; [apply Habs | apply Hp1].
    + intros r [->|Hr]%elem_of_cons; [by right | by left].
Qed.

Lemma reachable_placed_once s : reachable_fresh s -> placed_once s.
Proof.
  induction 1 as [s He|s q raw _ IH Habs|s src dst _ IH|s pq raw _ IH|s s' _ IH He].
  - by apply placed_once_init.
  - by apply placed_once_enqueue.
  - by apply placed_once_move.
  - by apply placed_once_remove.
  - destruct IH as [Hnd Hu]. split.
    + intros k. rewrite (lrange_ext _ _ k He). apply Hnd.
    + intros k1 k2 r. rewrite !(lrange_ext _ _ _ He). apply Hu.
Qed.


(** Counting the copies of a record. *)
Lemma count_in_app r l1 l2 :
  count_in r (l1 ++ l2) = (count_in r l1 + count_in r l2)%nat.
Proof. induction l1 as [|x l1 IH]; simpl; [done | rewrite IH; lia]. Qed.

Lemma count_in_notin r l : r ∉ l -> count_in r l = 0%nat.
Proof.
  induction l as [|x l IH]; simpl; [done |].
  intros Hn. apply not_elem_of_cons in Hn as [Hne Hn].
  rewrite decide_False by done. by rewrite IH.
Qed.

Lemma count_in_remove_first_ne v r l :
  v ≠ r -> count_in r (Redis.remove_first v l) = count_in r l.
Proof.
  intros Hne. induction l as [|x l IH]; simpl; [done |].
  destruct (decide (x = v)) as [->|Hx].
  - by rewrite decide_False.
  - simpl. by rewrite IH.
Qed.

Lemma count_in_remove_first_eq r l :
  r ∈ l -> S (count_in r (Redis.remove_first r l)) = count_in r l.
Proof.
  induction l as [|x l IH]; simpl; [by intros ?%elem_of_nil |].
  intros Hin. destruct (decide (x = r)) as [->|Hx]; [done |].
  apply elem_of_cons in Hin as [->|Hin]; [done |].
  simpl. rewrite decide_False by done. simpl. by apply IH.
Qed.

Lemma remove_first_notin v l : v ∉ l -> Redis.remove_first v l = l.
Proof.
  induction l as [|x l IH]; simpl; [done |].
  intros Hn. apply not_elem_of_cons in Hn as [Hne Hn].
  rewrite decide_False by done. by rewrite IH.
Qed.

Lemma count_in_remove_first_le v r l :
  (count_in r (Redis.remove_first v l) <= count_in r l)%nat.
Proof.
  induction l as [|x l IH]; simpl; [done |].
  destruct (decide (x = v)); simpl; lia.
Qed.

Lemma copies_put_list_notin keys k l r s :
  k ∉ keys -> copies keys r (Redis.put_list k l s) = copies keys r s.
Proof.
  induction keys as [|a keys IH]; simpl; [done |].
  intros Hn. apply not_elem_of_cons in Hn as [Hne Hn].
  rewrite lrange_put_list_ne by done. by rewrite IH.
Qed.

(** Writing the list [l] under a key that is counted changes the count by
    what the key held and what it holds now. *)
Lemma copies_put_list keys k l r s :
  NoDup keys -> k ∈ keys ->
  (copies keys r (Redis.put_list k l s) + count_in r (Redis.lrange k s)
   = copies keys r s + count_in r l)%nat.
Proof.
  induction keys as [|a keys IH]; simpl; [by intros _ ?%elem_of_nil |].
  intros [Ha Hnd]%NoDup_cons Hin.
  destruct (decide (a = k)) as [->|Hne].
  - rewrite lrange_put_list_eq. rewrite copies_put_list_notin by done. lia.
  - apply elem_of_cons in Hin as [->|Hin]; [done |].
    rewrite lrange_put_list_ne by done. specialize (IH Hnd Hin). lia.
Qed.

(** RPOPLPUSH neither makes nor loses a copy of any record. *)
Lemma copies_rpoplpush keys src dst r s :
  NoDup keys -> src ∈ keys -> dst ∈ keys ->
  copies keys r (snd (Redis.rpoplpush src dst s)) = copies keys r s.
Proof.
  intros Hnd Hsrc Hdst.
  destruct (list_snoc_cases (Redis.lrange src s)) as [He|(init & x & He)].
  - by rewrite rpoplpush_empty.
  - rewrite (rpoplpush_snoc _ _ _ _ _ He). cbn [snd].
    pose proof (copies_put_list keys src init r s Hnd Hsrc) as H1.
    pose proof (copies_put_list keys dst
                  (x :: Redis.lrange dst (Redis.put_list src init s)) r
                  (Redis.put_list src init s) Hnd Hdst) as H2.
    rewrite He, count_in_app in H1. simpl in H1, H2. lia.
Qed.

Lemma copies_lrem1 keys k v r s :
  NoDup keys -> k ∈ keys ->
  (copies keys r (Redis.lrem1 k v s)
   + (if decide (v = r /\ v ∈ Redis.lrange k s) then 1 else 0)
   = copies keys r s)%nat.
Proof.
  intros Hnd Hk. unfold Redis.lrem1.
  pose proof (copies_put_list keys k (Redis.remove_first v (Redis.lrange k s))
                r s Hnd Hk) as H.
  destruct (decide (v = r /\ v ∈ Redis.lrange k s)) as [[-> Hin]|Hno].
  - pose proof (count_in_remove_first_eq r _ Hin). lia.
  - destruct (decide (v = r)) as [->|Hne].
    + rewrite remove_first_notin in H |- * by tauto. lia.
    + rewrite count_in_remove_first_ne in H by done. lia.
Qed.

Lemma copies_rpush keys k v r s :
  NoDup keys -> k ∈ keys ->
  copies keys r (Redis.rpush k v s)
  = ((if decide (v = r) then 1 else 0) + copies keys r s)%nat.
Proof.
  intros Hnd Hk. unfold Redis.rpush.
  pose proof (copies_put_list keys k (Redis.lrange k s ++ [v]) r s Hnd Hk) as H.
  rewrite count_in_app in H. simpl in H. lia.
Qed.

Lemma rpoplpush_cases src dst s :
  (Redis.lrange src s = [] /\ Redis.rpoplpush src dst s = (None, s)) \/
  (exists init x, Redis.lrange src s = init ++ [x] /\
     Redis.rpoplpush src dst s =
       (Some x, Redis.put_list dst (x :: Redis.lrange dst (Redis.put_list src init s))
                  (Redis.put_list src init s))).
Proof.
  destruct (list_snoc_cases (Redis.lrange src s)) as [He|(init & x & He)].
  - left. split; [done | by apply rpoplpush_empty].
  - right. exists init, x. split; [done | by apply rpoplpush_snoc].
Qed.

Lemma rpoplpush_head src dst s x s1 :
  Redis.rpoplpush src dst s = (Some x, s1) ->
  head (Redis.lrange dst s1) = Some x.
Proof.
  destruct (rpoplpush_cases src dst s) as [[_ ->]|(init & y & _ & ->)];
    [discriminate |].
  intros [= <- <-]. by rewrite lrange_put_list_eq.
Qed.

(** RPOPLPUSH keeps whatever the destination held. *)
Lemma rpoplpush_keeps src dst s r :
  r ∈ Redis.lrange dst s -> r ∈ Redis.lrange dst (snd (Redis.rpoplpush src dst s)).
Proof.
  intros Hin.
  destruct (rpoplpush_cases src dst s) as [[_ ->]|(init & y & He & ->)];
    [done |].
  cbn [snd]. rewrite lrange_put_list_eq, lrange_put_list.
  apply elem_of_cons. case_decide as Hk; [subst dst | by right].
  rewrite He in Hin. apply elem_of_app in Hin as [Hin|Hin%list_elem_of_singleton];
    [by right | by left].
Qed.

Lemma lrem1_keeps k v r s :
  r ≠ v -> r ∈ Redis.lrange k s -> r ∈ Redis.lrange k (Redis.lrem1 k v s).
Proof.
  intros Hne Hin. unfold Redis.lrem1. rewrite lrange_put_list_eq.
  by apply remove_first_other.
Qed.

Section Scan.

Variable json_loads : string -> option json.

Lemma safe_fetch_from_reachable queues pq s :
  reachable_fresh s ->
  reachable_fresh (snd (TaskProcessor.safe_fetch_from json_loads queues pq s)).
Proof.
  revert s. induction queues as [|q rest IH]; intros s Hr; simpl; [done |].
  pose proof (reach_move s q pq Hr) as Hm.
  destruct (Redis.rpoplpush q pq s) as [[x|] s1]; cbn [snd] in Hm; [| by apply IH].
  destruct (String.eqb x ""); [by apply IH |].
  destruct (json_loads x) as [[| | | | | |data]|]; try done.
  - destruct (dict_get "id" data) as [v|]; [| by apply IH].
    destruct (truthy v); [done | by apply IH].
  - apply IH. by apply reach_remove.
Qed.

Lemma safe_fetch_from_fetched queues pq s f s' :
  TaskProcessor.safe_fetch_from json_loads queues pq s = (Some f, s') ->
  head (Redis.lrange pq s') = Some (TaskProcessor.f_raw f) /\
  TaskProcessor.f_queue f ∈ queues /\
  TaskProcessor.f_raw f ≠ "" /\
  json_loads (TaskProcessor.f_raw f) = Some (JObj (TaskProcessor.f_task_data f)) /\
  dict_get "id" (TaskProcessor.f_task_data f) = Some (TaskProcessor.f_task_id f) /\
  truthy (TaskProcessor.f_task_id f) = true.
Proof.
  revert s. induction queues as [|q rest IH]; intros s; simpl; [discriminate |].
  assert (Hrest : forall s2,
    TaskProcessor.safe_fetch_from json_loads rest pq s2 = (Some f, s') ->
    head (Redis.lrange pq s') = Some (TaskProcessor.f_raw f) /\
    TaskProcessor.f_queue f ∈ q :: rest /\
    TaskProcessor.f_raw f ≠ "" /\
    json_loads (TaskProcessor.f_raw f) = Some (JObj (TaskProcessor.f_task_data f)) /\
    dict_get "id" (TaskProcessor.f_task_data f) = Some (TaskProcessor.f_task_id f) /\
    truthy (TaskProcessor.f_task_id f) = true).
  { intros s2 H2. destruct (IH s2 H2) as (? & ? & ?). split; [done |].
    split; [by apply elem_of_cons; right | done]. }
  destruct (Redis.rpoplpush q pq s) as [[x|] s1] eqn:Hpop; [| apply Hrest].
  destruct (String.eqb x "") eqn:Hx; [apply Hrest |].
  destruct (json_loads x) as [[| | | | | |data]|] eqn:Hload;
    try discriminate; [| apply Hrest].
  destruct (dict_get "id" data) as [v|] eqn:Hid; [| apply Hrest].
  destruct (truthy v) eqn:Hv; [| apply Hrest].
  intros [= <- <-]. cbn.
  split; [by eapply rpoplpush_head |].
  split; [by apply elem_of_cons; left |].
  split; [by apply String.eqb_neq |]. done.
Qed.

(** A record that parses stays in the processing list through the scan. *)
Lemma safe_fetch_from_keeps queues pq s r :
  json_loads r ≠ None ->
  r ∈ Redis.lrange pq s ->
  r ∈ Redis.lrange pq (snd (TaskProcessor.safe_fetch_from json_loads queues pq s)).
Proof.
  intros Hr. revert s. induction queues as [|q rest IH]; intros s Hin; simpl; [done |].
  pose proof (rpoplpush_keeps q pq s r Hin) as Hk.
  destruct (Redis.rpoplpush q pq s) as [[x|] s1]; cbn [snd] in Hk; [| by apply IH].
  destruct (String.eqb x ""); [by apply IH |].
  destruct (json_loads x) as [[| | | | | |data]|] eqn:Hload; try done.
  - destruct (dict_get "id" data) as [v|]; [| by apply IH].
    destruct (truthy v); [done | by apply IH].
  - apply IH. apply lrem1_keeps; [congruence | done].
Qed.

Lemma safe_fetch_from_skip_empty pre rest pq s :
  (forall k, k ∈ pre -> Redis.lrange k s = []) ->
  TaskProcessor.safe_fetch_from json_loads (pre ++ rest) pq s =
  TaskProcessor.safe_fetch_from json_loads rest pq s.
Proof.
  induction pre as [|k pre IH]; intros He; simpl; [done |].
  rewrite rpoplpush_empty by (apply He, elem_of_cons; by left).
  apply IH. intros k' Hk'. apply He, elem_of_cons. by right.
Qed.

(** [safe_fetch] neither makes nor loses a copy of a record that parses,
    and makes a copy of no record at all. *)
Lemma safe_fetch_from_copies keys queues pq r s :
  NoDup keys -> (forall q, q ∈ queues -> q ∈ keys) -> pq ∈ keys ->
  (copies keys r (snd (TaskProcessor.safe_fetch_from json_loads queues pq s))
   <= copies keys r s)%nat /\
  (json_loads r ≠ None ->
   copies keys r (snd (TaskProcessor.safe_fetch_from json_loads queues pq s))
   = copies keys r s).
Proof.
  intros Hnd Hqs Hpq. revert s.
  induction queues as [|q rest IH]; intros s; simpl; [done |].
  assert (Hrest : forall q', q' ∈ rest -> q' ∈ keys).
  { intros q' Hq'. apply Hqs, elem_of_cons. by right. }
  specialize (IH Hrest).
  pose proof (copies_rpoplpush keys q pq r s Hnd
                (Hqs q ltac:(apply elem_of_cons; by left)) Hpq) as Hm.
  destruct (Redis.rpoplpush q pq s) as [[x|] s1]; cbn [snd] in Hm;
    [| rewrite <- Hm; apply IH].
  destruct (String.eqb x ""); [rewrite <- Hm; apply IH |].
  destruct (json_loads x) as [[| | | | | |data]|] eqn:Hload;
    cbn [snd]; try (rewrite Hm; done).
  - destruct (dict_get "id" data) as [v|]; [| rewrite <- Hm; apply IH].
    destruct (truthy v); [cbn [snd]; rewrite Hm; done | rewrite <- Hm; apply IH].
  - pose proof (copies_lrem1 keys pq x r s1 Hnd Hpq) as Hl.
    destruct (IH (Redis.lrem1 pq x s1)) as [Hle Heq]. split.
    + rewrite <- Hm. lia.
    + intros Hr. rewrite (Heq Hr), <- Hm.
      rewrite decide_False in Hl by (intros [-> _]; congruence). lia.
Qed.

(** C3 (amended). The queue commands handle one copy of a record at a
    time.  Over any set of lists that holds the queue written to, enqueue
    adds exactly one copy of the text pushed; over any set of lists that
    holds the scanned queues and the processing list, [safe_fetch] keeps the
    number of copies of every record that parses and raises the number of
    copies of none; removal from the processing list takes exactly one copy
    of the text when it is there, none otherwise.  The record [safe_fetch]
    returns is at the head of the processing list in the store it leaves,
    so a worker that stops right after the fetch leaves the record there.
    When the producers push a text only while no copy of it is in any list,
    every store reached has each record in no list twice and in no two
    lists, the fetched record is in the processing list only, and once
    removed it is nowhere. *)
Theorem records_moved_one_copy_at_a_time :
  (forall keys q raw r s,
     NoDup keys -> q ∈ keys ->
     copies keys r (TaskProcessor.enqueue q raw s)
     = ((if decide (raw = r) then 1 else 0) + copies keys r s)%nat) /\
  (forall keys queues pq r s,
     NoDup keys -> (forall q, q ∈ queues -> q ∈ keys) -> pq ∈ keys ->
     let s' := snd (TaskProcessor.safe_fetch json_loads queues pq s) in
     (copies keys r s' <= copies keys r s)%nat /\
     (json_loads r ≠ None -> copies keys r s' = copies keys r s)) /\
  (forall s queues pq f s',
     TaskProcessor.safe_fetch json_loads queues pq s = (Some f, s') ->
     head (Redis.lrange pq s') = Some (TaskProcessor.f_raw f) /\
     json_loads (TaskProcessor.f_raw f) ≠ None) /\
  (forall keys pq raw r s,
     NoDup keys -> pq ∈ keys ->
     (copies keys r (TaskProcessor.remove_from_processing pq raw s)
      + (if decide (raw = r /\ raw ∈ Redis.lrange pq s) then 1 else 0)
      = copies keys r s)%nat) /\
  (forall s, reachable_fresh s -> placed_once s) /\
  (forall s queues pq,
     reachable_fresh s ->
     reachable_fresh (snd (TaskProcessor.safe_fetch json_loads queues pq s))) /\
  (forall s queues pq f s',
     reachable_fresh s ->
     TaskProcessor.safe_fetch json_loads queues pq s = (Some f, s') ->
     forall k, TaskProcessor.f_raw f ∈ Redis.lrange k s' -> k = pq) /\
  (forall s pq raw,
     reachable_fresh s ->
     reachable_fresh (TaskProcessor.remove_from_processing pq raw s) /\
     (raw ∈ Redis.lrange pq s ->
      absent raw (TaskProcessor.remove_from_processing pq raw s))).
Proof.
  split; [intros; by apply copies_rpush |].
  split; [intros; by apply safe_fetch_from_copies |].
  split.
  { intros s queues pq f s' Hf.
    destruct (safe_fetch_from_fetched _ _ _ _ _ Hf) as (Hhead & _ & _ & Hl & _).
    split; [done | congruence]. }
  split; [intros; by apply copies_lrem1 |].
  split; [apply reachable_placed_once |].
  split; [intros; by apply safe_fetch_from_reachable |].
  split.
  - intros s queues pq f s' Hr Hf.
    destruct (safe_fetch_from_fetched _ _ _ _ _ Hf) as (Hhead & _).
    pose proof (safe_fetch_from_reachable queues pq s Hr) as Hr'.
    unfold TaskProcessor.safe_fetch in Hf. rewrite Hf in Hr'. cbn [snd] in Hr'.
    apply reachable_placed_once in Hr' as [_ Hu].
    intros k Hk. apply (Hu k pq _ Hk).
    destruct (Redis.lrange pq s'); [discriminate |].
    injection Hhead as ->. by left.
  - intros s pq raw Hr. split; [by apply reach_remove |].
    intros Hin k. apply reachable_placed_once in Hr as [Hnd Hu].
    unfold TaskProcessor.remove_from_processing, Redis.lrem1.
    rewrite lrange_put_list. case_decide as Hk.
    + subst k. specialize (Hnd pq). revert Hnd.
      induction (Redis.lrange pq s) as [|x l IH]; simpl; [by intros _ ?%elem_of_nil |].
      intros [Hx Hl]%NoDup_cons. destruct (decide (x = raw)) as [->|Hne]; [done |].
      apply elem_of_cons in Hin as [->|Hin]; [done |].
      intros [->|Hin']%elem_of_cons; [done | by apply IH].
    + intros Hin'. apply Hk. by apply (Hu pq k raw).
Qed.

(** C7. The scan visits the queues in the order they are listed, which by
    default is high, medium, low, default.  When every queue listed before
    [q] is empty and the tail of [q] is a well-formed task, [safe_fetch]
    returns that task with its id, its parsed data, the name [q] and the raw
    text as stored; the store it leaves is the one of the single RPOPLPUSH
    from [q]: the tail is gone from [q] and heads the processing list, and
    no other list has changed, whatever the later queues hold. *)
Theorem safe_fetch_first_nonempty_queue
    (pre post : list string) (q pq : string) (s : Redis.store)
    (init : list string) (raw : string) (data : list (string * json))
    (id : json) :
  (forall k, k ∈ pre -> Redis.lrange k s = []) ->
  Redis.lrange q s = init ++ [raw] ->
  raw ≠ "" ->
  json_loads raw = Some (JObj data) ->
  dict_get "id" data = Some id ->
  truthy id = true ->
  q ≠ pq ->
  TaskProcessor.default_queues =
    ["tasks:high"; "tasks:medium"; "tasks:low"; "tasks:default"] /\
  let r := TaskProcessor.safe_fetch json_loads (pre ++ q :: post) pq s in
  fst r = Some (TaskProcessor.Fetched id data q raw) /\
  snd r = snd (Redis.rpoplpush q pq s) /\
  Redis.lrange q (snd r) = init /\
  Redis.lrange pq (snd r) = raw :: Redis.lrange pq s /\
  (forall k, k ≠ q -> k ≠ pq -> Redis.lrange k (snd r) = Redis.lrange k s).
Proof.
  intros Hpre Hq Hraw Hload Hid Htruthy Hne. split; [reflexivity |].
  intros r. subst r. unfold TaskProcessor.safe_fetch.
  rewrite safe_fetch_from_skip_empty by done. simpl.
  rewrite (rpoplpush_snoc _ _ _ _ _ Hq).
  apply String.eqb_neq in Hraw. rewrite Hraw, Hload, Hid, Htruthy. cbn [fst snd].
  split; [done |]. split; [done |].
  split; [| split].
  - rewrite lrange_put_list_ne by done. by rewrite lrange_put_list_eq.
  - rewrite lrange_put_list_eq. by rewrite lrange_put_list_ne.
  - intros k Hk1 Hk2. by rewrite !lrange_put_list_ne.
Qed.

End Scan.

End QueueFacts.

(** Low then high: the high-queue task comes out first, the low one next. *)
Lemma safe_fetch_first_nonempty_queue_witness :
  let s := TaskProcessor.enqueue "tasks:high" Sample.raw_t1
             (TaskProcessor.enqueue "tasks:low" Sample.raw_t2 Redis.empty) in
  let r := TaskProcessor.safe_fetch Sample.loads TaskProcessor.default_queues
             "tasks:processing:w1" s in
  fst r = Some (TaskProcessor.Fetched (JStr "t1") [("id", JStr "t1")]
                  "tasks:high" Sample.raw_t1) /\
  Redis.lrange "tasks:processing:w1" (snd r) = [Sample.raw_t1] /\
  Redis.lrange "tasks:low" (snd r) = [Sample.raw_t2].
Proof.
  intros s r.
  destruct (safe_fetch_first_nonempty_queue Sample.loads []
              ["tasks:medium"; "tasks:low"; "tasks:default"]
              "tasks:high" "tasks:processing:w1" s [] Sample.raw_t1
              [("id", JStr "t1")] (JStr "t1"))
    as (_ & Hf & _ & _ & Hp & Ho).
  - intros k Hk. by apply elem_of_nil in Hk.
  - reflexivity.
  - discriminate.
  - reflexivity.
  - reflexivity.
  - reflexivity.
  - discriminate.
  - split; [exact Hf |]. split; [exact Hp |].
    exact (Ho "tasks:low" ltac:(discriminate) ltac:(discriminate)).
Defined.

(** One push, one fetch: the record is counted once before and once after,
    and it heads the processing list. *)
Lemma records_moved_one_copy_at_a_time_witness :
  let keys := "tasks:processing:w1" :: TaskProcessor.default_queues in
  let s := TaskProcessor.enqueue "tasks:default" Sample.raw_t1 Redis.empty in
  let s' := snd (TaskProcessor.safe_fetch Sample.loads
                   TaskProcessor.default_queues "tasks:processing:w1" s) in
  Placement.copies keys Sample.raw_t1 s = 1%nat /\
  Placement.copies keys Sample.raw_t1 s' = 1%nat /\
  Placement.placed_once s /\
  head (Redis.lrange "tasks:processing:w1" s') = Some Sample.raw_t1.
Proof.
  intros keys s s'.
  assert (Hr : Placement.reachable_fresh s).
  { apply Placement.reach_enqueue; [by apply Placement.reach_init |].
    intros k Hk. by apply elem_of_nil in Hk. }
  assert (Hnd : NoDup keys).
  { apply (bool_decide_eq_true_1 _). vm_compute. reflexivity. }
  destruct (records_moved_one_copy_at_a_time Sample.loads)
    as (Hpush & Hscan & Hfetch & _ & Hinv & _).
  split.
  { subst s. rewrite Hpush; [vm_compute; reflexivity | exact Hnd |].
    apply (bool_decide_eq_true_1 _). vm_compute. reflexivity. }
  split.
  { destruct (Hscan keys TaskProcessor.default_queues "tasks:processing:w1"
                Sample.raw_t1 s Hnd) as [_ Heq].
    - intros q Hq. apply elem_of_cons. by right.
    - apply elem_of_cons. by left.
    - fold s' in Heq. rewrite Heq by (vm_compute; discriminate).
      subst s. rewrite Hpush; [vm_compute; reflexivity | exact Hnd |].
      apply (bool_decide_eq_true_1 _). vm_compute. reflexivity. }
  split; [exact (Hinv s Hr) |].
  subst s'.
  destruct (TaskProcessor.safe_fetch Sample.loads TaskProcessor.default_queues
              "tasks:processing:w1" s) as [[f|] s'] eqn:Hf; [| discriminate].
  destruct (Hfetch s _ _ f s' Hf) as [Hhead _].
  cbn [snd]. rewrite Hhead. vm_compute in Hf. by injection Hf as <- _.
Defined.

(** C3, as stated, fails: nothing stops the same text from being pushed
    twice, and after one fetch one copy waits in its queue while the other is
    in the processing list. *)
Lemma duplicate_record_counterexample :
  let s := TaskProcessor.enqueue "tasks:default" Sample.raw_t1
             (TaskProcessor.enqueue "tasks:default" Sample.raw_t1 Redis.empty) in
  let r := TaskProcessor.safe_fetch Sample.loads TaskProcessor.default_queues
             "tasks:processing:w1" s in
  TaskProcessor.f_raw <$> fst r = Some Sample.raw_t1 /\
  Redis.lrange "tasks:default" (snd r) = [Sample.raw_t1] /\
  Redis.lrange "tasks:processing:w1" (snd r) = [Sample.raw_t1].
Proof. vm_compute. done. Qed.

(** ** The worker *)

Section WorkerFacts.

Import CourseSystem.

Variable result : Type.
Variable json_loads : string -> option json.
Variable json_dumps : result -> string + string.
Variable format_value : json -> string.
Variable E : env result.
Variable self : t.

Local Abbreviation rm := (retry_manager self).
Local Abbreviation n_max := (Z.to_nat (RetryManager.max_retries (retry_manager self))).

Ltac trace_norm :=
  rewrite <- ?app_assoc; cbn [app]; rewrite <- ?app_assoc; cbn [app]; reflexivity.

Lemma with_store_same w : with_store (store w) w = w.
Proof. by destruct w. Qed.

Lemma lsts_sync_state now wid tid status data s :
  Redis.lsts (StateSynchronizer.sync_state now wid tid status data s) = Redis.lsts s.
Proof. reflexivity. Qed.

Lemma lsts_release_lock now tid owner s :
  Redis.lsts (StateSynchronizer.release_lock now tid owner s) = Redis.lsts s.
Proof.
  unfold StateSynchronizer.release_lock.
  destruct (Redis.get now _ s); [| done]. by case_decide.
Qed.

Lemma lsts_acquire_lock now tid owner ttl s :
  Redis.lsts (snd (StateSynchronizer.acquire_lock now tid owner ttl s)) = Redis.lsts s.
Proof.
  unfold StateSynchronizer.acquire_lock, Redis.set_nx_ex.
  destruct (negb (Redis.accepts_ex now ttl)); [done |].
  by destruct (Redis.live now _ s).
Qed.

(** One failed attempt that is retried. *)
Lemma retry_loop_retry fuel tid td retries w e took :
  execute E (cursor w) = Raised e took ->
  retries < RetryManager.max_retries rm ->
  exists w1,
    retry_loop result E self (S fuel) tid td retries w
      = retry_loop result E self fuel tid td (retries + 1) w1 /\
    trace w1 = trace w ++ retry_rounds result E self tid td 1 retries (cursor w) /\
    cursor w1 = S (S (cursor w)) /\
    Redis.lsts (store w1) = Redis.lsts (store w).
Proof.
  intros He Hlt. eexists. split.
  - simpl. rewrite He. unfold RetryManager.should_retry.
    rewrite bool_decide_eq_true_2 by done. reflexivity.
  - cbn. rewrite <- !app_assoc. done.
Qed.

(** [k] failed attempts in a row, each of them retried. *)
Lemma retry_loop_rounds k : forall fuel tid td retries w,
  (forall i, (i < k)%nat -> exists e took,
     execute E (cursor w + 2 * i)%nat = Raised e took) ->
  (k <= Z.to_nat (RetryManager.max_retries rm - retries))%nat ->
  exists w1,
    retry_loop result E self (k + fuel) tid td retries w
      = retry_loop result E self fuel tid td (retries + Z.of_nat k) w1 /\
    trace w1 = trace w ++ retry_rounds result E self tid td k retries (cursor w) /\
    cursor w1 = (cursor w + 2 * k)%nat /\
    Redis.lsts (store w1) = Redis.lsts (store w).
Proof.
  induction k as [|k IH]; intros fuel tid td retries w Hfail Hle.
  - exists w. rewrite Z.add_0_r, app_nil_r, Nat.add_0_r. done.
  - destruct (Hfail 0%nat ltac:(lia)) as (e & took & He).
    rewrite Nat.add_0_r in He.
    destruct (retry_loop_retry (k + fuel) tid td retries w e took He ltac:(lia))
      as (w1 & Hstep & Htr & Hc & Hl).
    destruct (IH fuel tid td (retries + 1) w1) as (w2 & Hrest & Htr2 & Hc2 & Hl2).
    { intros i Hi. destruct (Hfail (S i) ltac:(lia)) as (e' & t' & He').
      exists e', t'. rewrite Hc. rewrite <- He'. f_equal. lia. }
    { lia. }
    exists w2. split; [| split; [| split]].
    + change (S k + fuel)%nat with (S (k + fuel)). rewrite Hstep, Hrest.
      f_equal. lia.
    + rewrite Htr2, Htr, Hc. rewrite <- app_assoc. reflexivity.
    + rewrite Hc2, Hc. lia.
    + congruence.
Qed.

Lemma executes_in_rounds tid td k : forall retries c,
  length (List.filter is_execute (retry_rounds result E self tid td k retries c)) = k.
Proof.
  induction k as [|k IH]; intros retries c; simpl; [reflexivity |].
  by rewrite IH.
Qed.

(** The loop ends within [max_retries - retries + 1] calls, and all it
    leaves in the trace are calls, sleeps and state updates. *)
Lemma retry_loop_total fuel : forall tid td retries w,
  (Z.to_nat (RetryManager.max_retries rm - retries) < fuel)%nat ->
  exists res w1 mid,
    retry_loop result E self fuel tid td retries w = Some (res, w1) /\
    trace w1 = trace w ++ mid /\
    Forall (fun e => closing e = false) mid /\
    Redis.lsts (store w1) = Redis.lsts (store w).
Proof.
  induction fuel as [|fuel IH]; intros tid td retries w Hfuel; [lia |].
  simpl. destruct (execute E (cursor w)) as [r took|e took] eqn:He.
  - eexists _, _, [EvExecute td]. split; [reflexivity |].
    split; [reflexivity |]. split; [| reflexivity].
    by repeat constructor.
  - unfold RetryManager.should_retry. case_bool_decide as Hlt.
    + edestruct (IH tid td (retries + 1)) as (res & w1 & mid & Hrun & Htr & Hq & Hl);
        [lia |].
      eexists res, w1, (_ :: _ :: _ :: mid). rewrite Hrun. split; [reflexivity |].
      split; [| split].
      * rewrite Htr. cbn. rewrite <- !app_assoc. reflexivity.
      * by repeat constructor.
      * rewrite Hl. reflexivity.
    + eexists _, _, [EvExecute td]. split; [reflexivity |].
      split; [reflexivity |]. split; [| reflexivity].
      by repeat constructor.
Qed.

Lemma process_task_with_retry_total tid td w :
  exists res w1 mid,
    process_task_with_retry result E self tid td w = Some (res, w1) /\
    trace w1 = trace w ++ mid /\
    Forall (fun e => closing e = false) mid /\
    Redis.lsts (store w1) = Redis.lsts (store w).
Proof. apply retry_loop_total. lia. Qed.

(** What the pass is once the lock is taken and the heartbeat runs. *)
Lemma handle_task_locked tid td pq raw w :
  is_completed (StateSynchronizer.get_state tid (store w)) = false ->
  fst (StateSynchronizer.acquire_lock (now w) tid (worker_id self) 300 (store w))
    = true ->
  thread_start E (cursor w) = true ->
  handle_task result json_dumps E self tid td pq raw w =
    match process_task_with_retry result E self tid td
            (sync_state self tid "running" ∅
               (emit (EvHeartbeatStart tid)
                  (next (with_store
                     (snd (StateSynchronizer.acquire_lock (now w) tid
                             (worker_id self) 300 (store w))) w)))) with
    | None => None
    | Some (inl r, w4) =>
        match json_dumps r with
        | inl result_json =>
            Some (finalize self tid pq raw
                    (report_result tid "SUCCESS"
                       (sync_state self tid "completed"
                          {["result" := Redis.HStr result_json]} w4)))
        | inr err => Some (finalize self tid pq raw (report_failure self tid err w4))
        end
    | Some (inr err, w4) =>
        Some (finalize self tid pq raw (report_failure self tid err w4))
    end.
Proof.
  intros Hc Ha Ht. unfold handle_task. rewrite Hc.
  destruct (StateSynchronizer.acquire_lock _ _ _ _ _) as [ok s1].
  cbn [fst snd] in *. subst ok. cbn [with_store cursor]. rewrite Ht. reflexivity.
Qed.

Lemma trace_finalize tid pq raw w :
  trace (finalize self tid pq raw w) =
    trace w ++ [EvHeartbeatStop tid; EvRelease tid (worker_id self); EvAck pq raw].
Proof. cbn. by rewrite <- !app_assoc. Qed.

Lemma lrange_finalize tid pq raw w :
  Redis.lrange pq (store (finalize self tid pq raw w)) =
    Redis.remove_first raw (Redis.lrange pq (store w)).
Proof.
  cbn. unfold TaskProcessor.remove_from_processing, Redis.lrem1.
  rewrite lrange_put_list_eq. unfold Redis.lrange.
  by rewrite lsts_release_lock.
Qed.

Lemma hshs_finalize tid pq raw w :
  Redis.hshs (store (finalize self tid pq raw w)) = Redis.hshs (store w).
Proof.
  cbn. unfold StateSynchronizer.release_lock.
  destruct (Redis.get _ _ _); [| done]. by case_decide.
Qed.

Lemma trace_report_failure tid err w :
  trace (report_failure self tid err w) =
    trace w ++ [EvSync tid "failed" {["error" := Redis.HStr err]};
                EvReport tid "FAILURE"].
Proof. cbn. by rewrite <- !app_assoc. Qed.

(** The guarded block.  In a pass that takes the lock and starts the
    heartbeat thread, whatever the Executor, the serialisation of its result
    and the retries do, [handle_task] returns and the events after the
    heartbeat start end with exactly one heartbeat stop, one lock release
    and one acknowledgment, in this order, none of them occurring earlier;
    the processing list has lost one occurrence of the raw text. *)
Lemma finalize_runs_once tid td pq raw w :
  is_completed (StateSynchronizer.get_state tid (store w)) = false ->
  fst (StateSynchronizer.acquire_lock (now w) tid (worker_id self) 300 (store w))
    = true ->
  thread_start E (cursor w) = true ->
  exists w' mid,
    handle_task result json_dumps E self tid td pq raw w = Some w' /\
    trace w' = trace w ++ EvHeartbeatStart tid :: mid ++
                 [EvHeartbeatStop tid; EvRelease tid (worker_id self);
                  EvAck pq raw] /\
    Forall (fun e => closing e = false) mid /\
    Redis.lrange pq (store w') = Redis.remove_first raw (Redis.lrange pq (store w)).
Proof.
  intros Hc Ha Ht. rewrite handle_task_locked by done.
  set (w3 := sync_state self tid "running" ∅ _).
  destruct (process_task_with_retry_total tid td w3)
    as (res & w4 & mid & -> & Htr & Hq & Hl).
  assert (Htr3 : trace w3 = trace w ++ [EvHeartbeatStart tid; EvSync tid "running" ∅]).
  { subst w3. cbn. by rewrite <- !app_assoc. }
  assert (Hl3 : Redis.lrange pq (store w4) = Redis.lrange pq (store w)).
  { unfold Redis.lrange. rewrite Hl. subst w3. cbn.
    by rewrite lsts_acquire_lock. }
  destruct res as [r|err]; [destruct (json_dumps r) as [txt|err] |].
  - exists (finalize self tid pq raw
              (report_result tid "SUCCESS"
                 (sync_state self tid "completed"
                    {["result" := Redis.HStr txt]} w4))),
      (EvSync tid "running" ∅ :: mid ++
         [EvSync tid "completed" {["result" := Redis.HStr txt]};
          EvReport tid "SUCCESS"]).
    split; [reflexivity |]. split; [| split].
    + rewrite trace_finalize. cbn.
      rewrite Htr, Htr3. trace_norm.
    + constructor; [done |]. apply Forall_app. split; [done |]. by repeat constructor.
    + rewrite lrange_finalize. cbn. by rewrite <- Hl3.
  - exists (finalize self tid pq raw (report_failure self tid err w4)),
      (EvSync tid "running" ∅ :: mid ++
         [EvSync tid "failed" {["error" := Redis.HStr err]};
          EvReport tid "FAILURE"]).
    split; [reflexivity |]. split; [| split].
    + rewrite trace_finalize, trace_report_failure. rewrite Htr, Htr3.
      trace_norm.
    + constructor; [done |]. apply Forall_app. split; [done |]. by repeat constructor.
    + rewrite lrange_finalize. cbn. by rewrite <- Hl3.
  - exists (finalize self tid pq raw (report_failure self tid err w4)),
      (EvSync tid "running" ∅ :: mid ++
         [EvSync tid "failed" {["error" := Redis.HStr err]};
          EvReport tid "FAILURE"]).
    split; [reflexivity |]. split; [| split].
    + rewrite trace_finalize, trace_report_failure. rewrite Htr, Htr3.
      trace_norm.
    + constructor; [done |]. apply Forall_app. split; [done |]. by repeat constructor.
    + rewrite lrange_finalize. cbn. by rewrite <- Hl3.
Qed.

Lemma state_after_failure tid err pq raw w :
  let w' := finalize self tid pq raw (report_failure self tid err w) in
  StateSynchronizer.get_state tid (store w') !! "status" = Some (Redis.HStr "failed") /\
  StateSynchronizer.get_state tid (store w') !! "error" = Some (Redis.HStr err).
Proof.
  intros w'. subst w'. unfold StateSynchronizer.get_state, Redis.hgetall.
  rewrite hshs_finalize. cbn. rewrite lookup_insert_eq. cbn.
  split.
  - rewrite <- assoc_L by apply _. rewrite lookup_union_r by done.
    by rewrite lookup_union_l' by done.
  - rewrite <- assoc_L by apply _. by rewrite lookup_union_l' by done.
Qed.

(** C4 (amended). In a pass that takes the lock and starts the heartbeat:
    each failure that has fewer than [max_retries] failures before it is
    followed by the sleep for the backoff of the count of earlier failures,
    then by the [retrying] state with the incremented count, then by the next
    call.  When the call after [k <= max_retries] failures returns, the trace
    ends with [completed], the report and the finalizers.  When the first
    [max_retries + 1] calls all fail, that many calls are made and no more,
    and the pass ends in the state [failed] with the last error. *)
Theorem retry_then_terminal tid td pq raw w :
  is_completed (StateSynchronizer.get_state tid (store w)) = false ->
  fst (StateSynchronizer.acquire_lock (now w) tid (worker_id self) 300 (store w))
    = true ->
  thread_start E (cursor w) = true ->
  let c := S (cursor w) in
  (forall k r took txt,
     (k <= n_max)%nat ->
     (forall i, (i < k)%nat -> exists e t, execute E (c + 2 * i)%nat = Raised e t) ->
     execute E (c + 2 * k)%nat = Returned r took ->
     json_dumps r = inl txt ->
     exists w',
       handle_task result json_dumps E self tid td pq raw w = Some w' /\
       trace w' = trace w ++
         [EvHeartbeatStart tid; EvSync tid "running" ∅] ++
         retry_rounds result E self tid td k 0 c ++
         [EvExecute td;
          EvSync tid "completed" {["result" := Redis.HStr txt]};
          EvReport tid "SUCCESS";
          EvHeartbeatStop tid; EvRelease tid (worker_id self); EvAck pq raw]) /\
  (forall e took,
     (forall i, (i < n_max)%nat ->
        exists e' t, execute E (c + 2 * i)%nat = Raised e' t) ->
     execute E (c + 2 * n_max)%nat = Raised e took ->
     exists w',
       handle_task result json_dumps E self tid td pq raw w = Some w' /\
       trace w' = trace w ++
         [EvHeartbeatStart tid; EvSync tid "running" ∅] ++
         retry_rounds result E self tid td n_max 0 c ++
         [EvExecute td;
          EvSync tid "failed" {["error" := Redis.HStr e]};
          EvReport tid "FAILURE";
          EvHeartbeatStop tid; EvRelease tid (worker_id self); EvAck pq raw] /\
       length (List.filter is_execute
                 (retry_rounds result E self tid td n_max 0 c ++ [EvExecute td]))
         = S n_max /\
       StateSynchronizer.get_state tid (store w') !! "status"
         = Some (Redis.HStr "failed") /\
       StateSynchronizer.get_state tid (store w') !! "error"
         = Some (Redis.HStr e)).
Proof.
  intros Hc Ha Ht c. rewrite handle_task_locked by done.
  set (w3 := sync_state self tid "running" ∅ _).
  assert (Htr3 : trace w3 = trace w ++ [EvHeartbeatStart tid; EvSync tid "running" ∅]).
  { subst w3. cbn. by rewrite <- !app_assoc. }
  assert (Hc3 : cursor w3 = c) by reflexivity.
  unfold process_task_with_retry. split.
  - intros k r took txt Hk Hfail Hret Hdump.
    replace (S n_max) with (k + S (n_max - k))%nat by lia.
    destruct (retry_loop_rounds k (S (n_max - k)) tid td 0 w3)
      as (w4 & -> & Htr4 & Hc4 & _).
    { by rewrite Hc3. }
    { rewrite Z.sub_0_r. done. }
    cbn [retry_loop]. rewrite Hc4, Hc3, Hret, Hdump.
    eexists. split; [reflexivity |].
    rewrite trace_finalize. cbn. rewrite Htr4, Htr3, Hc3. trace_norm.
  - intros e took Hfail Hlast.
    replace (S n_max) with (n_max + 1)%nat by lia.
    destruct (retry_loop_rounds n_max 1 tid td 0 w3)
      as (w4 & -> & Htr4 & Hc4 & _).
    { by rewrite Hc3. }
    { rewrite Z.sub_0_r. done. }
    cbn [retry_loop]. rewrite Hc4, Hc3, Hlast.
    unfold RetryManager.should_retry. rewrite bool_decide_eq_false_2 by lia.
    eexists. split; [reflexivity |].
    split; [| split; [| apply state_after_failure]].
    + rewrite trace_finalize, trace_report_failure. cbn.
      rewrite Htr4, Htr3, Hc3. trace_norm.
    + rewrite List.filter_app, length_app, executes_in_rounds. simpl. lia.
Qed.

Lemma is_completed_spec (state : gmap string Redis.hval) :
  is_completed state = true <-> state !! "status" = Some (Redis.HStr "completed").
Proof.
  unfold is_completed. destruct (state !! "status") as [[status|z|q]|];
    split; intros H; try discriminate.
  - apply String.eqb_eq in H. by subst status.
  - injection H as ->. reflexivity.
Qed.

(** The pass when the lock is taken and the heartbeat thread cannot be
    started: the outer handler logs and the pass is over. *)
Lemma handle_task_thread_fails tid td pq raw w :
  is_completed (StateSynchronizer.get_state tid (store w)) = false ->
  fst (StateSynchronizer.acquire_lock (now w) tid (worker_id self) 300 (store w))
    = true ->
  thread_start E (cursor w) = false ->
  handle_task result json_dumps E self tid td pq raw w =
    Some (next (with_store
                  (snd (StateSynchronizer.acquire_lock (now w) tid
                          (worker_id self) 300 (store w))) w)).
Proof.
  intros Hc Ha Ht. unfold handle_task. rewrite Hc.
  destruct (StateSynchronizer.acquire_lock _ _ _ _ _) as [ok s1].
  cbn [fst snd] in *. subst ok. cbn [with_store cursor]. rewrite Ht. reflexivity.
Qed.

(** C5. When the status stored for the task is [completed], or a live lock
    record exists for its id, or [acquire_lock] answers false for any other
    reason, [handle_task] returns normally and all it does is the one
    removal of the raw text from the processing list: no call of the
    Executor, no state update, no publication, no report, and the locks are
    untouched. *)
Theorem duplicate_delivery_acked tid td pq raw w :
  StateSynchronizer.get_state tid (store w) !! "status"
    = Some (Redis.HStr "completed") \/
  Redis.live (now w) (StateSynchronizer.lock_key tid) (store w) = true \/
  fst (StateSynchronizer.acquire_lock (now w) tid (worker_id self) 300 (store w))
    = false ->
  exists w',
    handle_task result json_dumps E self tid td pq raw w = Some w' /\
    trace w' = trace w ++ [EvAck pq raw] /\
    store w' = TaskProcessor.remove_from_processing pq raw (store w) /\
    Redis.lrange pq (store w') = Redis.remove_first raw (Redis.lrange pq (store w)) /\
    Redis.hshs (store w') = Redis.hshs (store w) /\
    Redis.pubs (store w') = Redis.pubs (store w) /\
    Redis.strs (store w') = Redis.strs (store w) /\
    cursor w' = cursor w.
Proof.
  intros Hdup. exists (remove_from_processing pq raw w).
  split; [| split; [reflexivity | split; [reflexivity | split;
    [| repeat split]]]].
  - unfold handle_task.
    destruct (is_completed _) eqn:Hc; [reflexivity |].
    assert (Hno : fst (StateSynchronizer.acquire_lock (now w) tid
                         (worker_id self) 300 (store w)) = false).
    { destruct Hdup as [Hdup|[Hdup|Hdup]]; [| | exact Hdup].
      - apply is_completed_spec in Hdup. congruence.
      - by rewrite acquire_lock_live. }
    pose proof (acquire_lock_refused _ _ _ _ _ Hno) as Hs.
    destruct (StateSynchronizer.acquire_lock _ _ _ _ _) as [ok s1].
    cbn [fst snd] in *. subst ok s1. by rewrite with_store_same.
  - cbn. unfold TaskProcessor.remove_from_processing, Redis.lrem1.
    by rewrite lrange_put_list_eq.
Qed.

(** The leftover pass drops an entry that is an object without an id. *)
Lemma process_leftovers_drops_idless fuel pq raw data w :
  Redis.lindex0 pq (store w) = Some raw ->
  raw ≠ "" ->
  json_loads raw = Some (JObj data) ->
  (forall id, dict_get "id" data = Some id -> truthy id = false) ->
  process_leftovers result json_loads json_dumps format_value E self (S fuel) pq w =
  process_leftovers result json_loads json_dumps format_value E self fuel pq
    (remove_from_processing pq raw w).
Proof.
  intros Hhead Hraw Hload Hid. cbn [process_leftovers]. rewrite Hhead.
  apply String.eqb_neq in Hraw. rewrite Hraw, Hload.
  destruct (dict_get "id" data) as [id|]; [| reflexivity].
  by rewrite (Hid id eq_refl).
Qed.

(** An entry that parses to something other than an object is never
    dropped: every round of the leftover pass finds it again. *)
Lemma process_leftovers_stuck fuel pq raw v w :
  Redis.lindex0 pq (store w) = Some raw ->
  raw ≠ "" ->
  json_loads raw = Some v ->
  (forall data, v ≠ JObj data) ->
  process_leftovers result json_loads json_dumps format_value E self fuel pq w = None.
Proof.
  intros Hhead Hraw Hload Hv. apply String.eqb_neq in Hraw.
  induction fuel as [|fuel IH]; [reflexivity |].
  cbn [process_leftovers]. rewrite Hhead, Hraw, Hload.
  destruct v; try exact IH. by destruct (Hv fields).
Qed.

End WorkerFacts.

(** ** Records without an id *)

Section IdlessRecords.

Import CourseSystem.

Variable result : Type.
Variable json_loads : string -> option json.
Variable json_dumps : result -> string + string.
Variable format_value : json -> string.
Variable E : env result.
Variable self : t.

(** Objects without an id.  A record at the tail of the queue the scan
    visits that parses to a JSON object without a truthy [id] is moved to
    the head of the processing list and the scan goes on with the queues
    that follow;
    [safe_fetch] does not return it, it is still in the processing list when
    [safe_fetch] is done, and the acknowledgment of any other raw text
    leaves it there.  The leftover pass, finding it at the head of the
    processing list, removes it and goes on. *)
Lemma idless_object_stays_until_recovery
    (q : string) (rest : list string) (pq : string) (s : Redis.store)
    (init : list string) (raw : string) (data : list (string * json)) :
  Redis.lrange q s = init ++ [raw] ->
  raw ≠ "" ->
  json_loads raw = Some (JObj data) ->
  (forall id, dict_get "id" data = Some id -> truthy id = false) ->
  let s1 := snd (Redis.rpoplpush q pq s) in
  let r := TaskProcessor.safe_fetch json_loads (q :: rest) pq s in
  r = TaskProcessor.safe_fetch json_loads rest pq s1 /\
  head (Redis.lrange pq s1) = Some raw /\
  raw ∈ Redis.lrange pq (snd r) /\
  (forall f, fst r = Some f -> TaskProcessor.f_raw f ≠ raw) /\
  (forall raw' s2,
     raw' ≠ raw -> raw ∈ Redis.lrange pq s2 ->
     raw ∈ Redis.lrange pq (TaskProcessor.remove_from_processing pq raw' s2)) /\
  (forall fuel w,
     Redis.lindex0 pq (store w) = Some raw ->
     process_leftovers result json_loads json_dumps format_value E self
       (S fuel) pq w
     = process_leftovers result json_loads json_dumps format_value E self
         fuel pq (remove_from_processing pq raw w) /\
     Redis.lrange pq (store (remove_from_processing pq raw w))
     = tail (Redis.lrange pq (store w))).
Proof.
  intros Hq Hraw Hload Hid s1 r.
  assert (Hpop : Redis.rpoplpush q pq s = (Some raw, s1)).
  { subst s1. by rewrite (rpoplpush_snoc _ _ _ _ _ Hq). }
  assert (Hstep : r = TaskProcessor.safe_fetch json_loads rest pq s1).
  { subst r. unfold TaskProcessor.safe_fetch. cbn [TaskProcessor.safe_fetch_from].
    rewrite Hpop. apply String.eqb_neq in Hraw. rewrite Hraw, Hload.
    destruct (dict_get "id" data) as [id|]; [| reflexivity].
    by rewrite (Hid id eq_refl). }
  assert (Hhead : head (Redis.lrange pq s1) = Some raw)
    by (by eapply rpoplpush_head).
  split; [exact Hstep |]. split; [exact Hhead |]. split; [| split; [| split]].
  - rewrite Hstep. apply safe_fetch_from_keeps; [congruence |].
    destruct (Redis.lrange pq s1); [discriminate |].
    injection Hhead as ->. by left.
  - intros f Hf Heq.
    destruct r as [o s'] eqn:Hr. cbn [fst] in Hf. subst o.
    destruct (safe_fetch_from_fetched json_loads _ _ _ _ _ Hr)
      as (_ & _ & _ & Hl & Hi & Ht).
    rewrite Heq, Hload in Hl. injection Hl as Hd. rewrite <- Hd in Hi.
    specialize (Hid _ Hi). congruence.
  - intros raw' s2 Hne Hin. by apply lrem1_keeps.
  - intros fuel w Hw. split.
    + by apply process_leftovers_drops_idless with (data := data).
    + cbn. unfold TaskProcessor.remove_from_processing, Redis.lrem1.
      rewrite lrange_put_list_eq. unfold Redis.lindex0 in Hw.
      destruct (Redis.lrange pq (store w)) as [|x l]; [discriminate |].
      injection Hw as ->. apply remove_first_head.
Qed.

End IdlessRecords.

(** ** Worked instances *)

Section Instances.

Import CourseSystem.

Lemma finalize_runs_once_witness :
  exists w' mid,
    handle_task string Sample.dumps (Sample.flaky 2) Sample.worker "t1"
      Sample.task_t1 Sample.processing Sample.raw_t1
      (Sample.world0 Sample.fetched_t1) = Some w' /\
    trace w' = EvHeartbeatStart "t1" :: mid ++
                 [EvHeartbeatStop "t1"; EvRelease "t1" "w1";
                  EvAck Sample.processing Sample.raw_t1] /\
    Redis.lrange Sample.processing (store w') = [].
Proof.
  destruct (finalize_runs_once string Sample.dumps (Sample.flaky 2)
              Sample.worker "t1" Sample.task_t1 Sample.processing
              Sample.raw_t1 (Sample.world0 Sample.fetched_t1))
    as (w' & mid & Hrun & Htr & _ & Hl).
  - vm_compute; reflexivity.
  - vm_compute; reflexivity.
  - vm_compute; reflexivity.
  - exists w', mid. split; [exact Hrun |]. split; [exact Htr |].
    rewrite Hl. vm_compute; reflexivity.
Defined.

(** C2.  The code does not do what the claim says.  [_handle_task] takes
    the lock and then creates and starts the heartbeat thread before its
    guarded block is entered.  In every pass in which the lock is taken and
    the thread cannot be started, the pass ends without heartbeat stop,
    without lock release and without acknowledgment: nothing is added to
    the trace, GET of the lock still answers this worker up to the end of
    the lease, and every list is as the fetch left it.  For the fetched task
    [t1] on a host that cannot start threads: the lock is held, the raw text
    is in the processing list, and the leftover pass that follows takes the
    lock of the pass itself for another owner's and acknowledges the task,
    which is thereby dropped without a single call of the Executor.  The
    pass whose thread starts is finalized whatever happens after. *)
Theorem finalize_skipped_when_thread_start_fails :
  (forall (result : Type) (json_dumps : result -> string + string)
          (E : env result) (self : t) tid td pq raw w,
     StateSynchronizer.get_state tid (store w) !! "status"
       ≠ Some (Redis.HStr "completed") ->
     fst (StateSynchronizer.acquire_lock (now w) tid (worker_id self) 300
            (store w)) = true ->
     thread_start E (cursor w) = false ->
     exists w',
       handle_task result json_dumps E self tid td pq raw w = Some w' /\
       trace w' = trace w /\
       (forall t, (t <= now w + 300)%Q ->
          Redis.get t (StateSynchronizer.lock_key tid) (store w')
          = Some (worker_id self)) /\
       Redis.lsts (store w') = Redis.lsts (store w)) /\
  (let r := handle_task string Sample.dumps Sample.no_threads Sample.worker
              "t1" Sample.task_t1 Sample.processing Sample.raw_t1
              (Sample.world0 Sample.fetched_t1) in
   let r' := r ≫= process_leftovers string Sample.loads Sample.dumps
                    Sample.format_value Sample.no_threads Sample.worker 3
                    Sample.processing in
   fst (StateSynchronizer.acquire_lock 0 "t1" "w1" 300 Sample.fetched_t1) = true /\
   (trace <$> r) = Some [] /\
   ((fun w => Redis.get 0 (StateSynchronizer.lock_key "t1") (store w)) <$> r)
     = Some (Some "w1") /\
   ((fun w => Redis.lrange Sample.processing (store w)) <$> r)
     = Some [Sample.raw_t1] /\
   (trace <$> r') = Some [EvAck Sample.processing Sample.raw_t1] /\
   ((fun w => Redis.lrange Sample.processing (store w)) <$> r') = Some [] /\
   ((fun w => Redis.lrange "tasks:default" (store w)) <$> r') = Some []) /\
  (forall (result : Type) (json_dumps : result -> string + string)
          (E : env result) (self : t) tid td pq raw w,
     StateSynchronizer.get_state tid (store w) !! "status"
       ≠ Some (Redis.HStr "completed") ->
     fst (StateSynchronizer.acquire_lock (now w) tid (worker_id self) 300
            (store w)) = true ->
     thread_start E (cursor w) = true ->
     exists w' mid,
       handle_task result json_dumps E self tid td pq raw w = Some w' /\
       trace w' = trace w ++ EvHeartbeatStart tid :: mid ++
                    [EvHeartbeatStop tid; EvRelease tid (worker_id self);
                     EvAck pq raw] /\
       Forall (fun e => closing e = false) mid).
Proof.
  split; [| split].
  - intros result json_dumps E self tid td pq raw w Hst Ha Ht.
    assert (Hc : is_completed (StateSynchronizer.get_state tid (store w)) = false).
    { apply not_true_is_false. intros Hc. by apply is_completed_spec in Hc. }
    rewrite handle_task_thread_fails by done.
    eexists. split; [reflexivity |]. split; [reflexivity |].
    pose proof (acquire_lock_accepted _ _ _ _ _ Ha) as Hacc.
    revert Ha. rewrite acquire_lock_unfold by done.
    destruct (Redis.live _ _ _); [discriminate |]. intros _.
    cbn [snd next with_store store Redis.lsts].
    split; [| reflexivity].
    intros t Hle. unfold Redis.get. cbn [Redis.strs]. rewrite lookup_insert_eq.
    apply unexpired_spec in Hle. change (inject_Z 300) with 300%Q.
    by rewrite Hle.
  - vm_compute. done.
  - intros result json_dumps E self tid td pq raw w Hst Ha Ht.
    assert (Hc : is_completed (StateSynchronizer.get_state tid (store w)) = false).
    { apply not_true_is_false. intros Hc. by apply is_completed_spec in Hc. }
    destruct (finalize_runs_once result json_dumps E self tid td pq raw w Hc Ha Ht)
      as (w' & mid & Hrun & Htr & Hmid & _).
    by exists w', mid.
Qed.

(** Two failures, then a result: [retrying] with counts 1 and 2, each after
    its sleep, then [completed]. *)
Lemma retry_then_terminal_witness :
  exists w',
    handle_task string Sample.dumps (Sample.flaky 2) Sample.worker "t1"
      Sample.task_t1 Sample.processing Sample.raw_t1
      (Sample.world0 Sample.fetched_t1) = Some w' /\
    trace w' =
      [EvHeartbeatStart "t1"; EvSync "t1" "running" ∅;
       EvExecute Sample.task_t1;
       EvSleep (RetryManager.get_backoff_time RetryManager.default 0 0);
       EvSync "t1" "retrying" {["retry_count" := Redis.HInt 1]};
       EvExecute Sample.task_t1;
       EvSleep (RetryManager.get_backoff_time RetryManager.default 1 0);
       EvSync "t1" "retrying" {["retry_count" := Redis.HInt 2]};
       EvExecute Sample.task_t1;
       EvSync "t1" "completed" {["result" := Redis.HStr "done"]};
       EvReport "t1" "SUCCESS";
       EvHeartbeatStop "t1"; EvRelease "t1" "w1";
       EvAck Sample.processing Sample.raw_t1].
Proof.
  destruct (retry_then_terminal string Sample.dumps (Sample.flaky 2)
              Sample.worker "t1" Sample.task_t1 Sample.processing
              Sample.raw_t1 (Sample.world0 Sample.fetched_t1))
    as [Hok _].
  - vm_compute; reflexivity.
  - vm_compute; reflexivity.
  - vm_compute; reflexivity.
  - destruct (Hok 2%nat "done" 1%Q "done") as (w' & Hrun & Htr).
    + vm_compute. lia.
    + intros i Hi. exists "boom", 1%Q.
      destruct i as [|[|i]]; [reflexivity | reflexivity | lia].
    + reflexivity.
    + reflexivity.
    + exists w'. split; [exact Hrun |]. rewrite Htr. vm_compute; reflexivity.
Defined.

(** C4, as stated, fails twice over.  With [max_retries = 3] and an
    Executor that always fails, a fourth call is made after three failures
    have occurred; and after a failure the worker sleeps first and writes
    [retrying] afterwards. *)
Lemma retry_claim_counterexample :
  let r := handle_task string Sample.dumps (Sample.flaky 4) Sample.worker
             "t1" Sample.task_t1 Sample.processing Sample.raw_t1
             (Sample.world0 Sample.fetched_t1) in
  RetryManager.max_retries (retry_manager Sample.worker) = 3 /\
  ((fun w => length (List.filter is_execute (trace w))) <$> r) = Some 4%nat /\
  ((fun w => firstn 5 (trace w)) <$> r) =
    Some [EvHeartbeatStart "t1"; EvSync "t1" "running" ∅;
          EvExecute Sample.task_t1;
          EvSleep (RetryManager.get_backoff_time RetryManager.default 0 0);
          EvSync "t1" "retrying" {["retry_count" := Redis.HInt 1]}].
Proof. vm_compute. done. Qed.

(** Worker [w1] fetched a copy of [t1] that [w0] has completed; and a copy
    of [t1] while [w2] holds its lock. *)
Lemma duplicate_delivery_acked_witness :
  (exists w',
     handle_task string Sample.dumps (Sample.flaky 0) Sample.worker "t1"
       Sample.task_t1 Sample.processing Sample.raw_t1
       (Sample.world0 Sample.fetched_t1_completed) = Some w' /\
     trace w' = [EvAck Sample.processing Sample.raw_t1] /\
     Redis.lrange Sample.processing (store w') = []) /\
  (exists w',
     handle_task string Sample.dumps (Sample.flaky 0) Sample.worker "t1"
       Sample.task_t1 Sample.processing Sample.raw_t1
       (Sample.world0 Sample.fetched_t1_locked) = Some w' /\
     trace w' = [EvAck Sample.processing Sample.raw_t1] /\
     Redis.lrange Sample.processing (store w') = []).
Proof.
  split.
  - destruct (duplicate_delivery_acked string Sample.dumps (Sample.flaky 0)
                Sample.worker "t1" Sample.task_t1 Sample.processing
                Sample.raw_t1 (Sample.world0 Sample.fetched_t1_completed))
      as (w' & Hrun & Htr & _ & Hl & _).
    + left. vm_compute; reflexivity.
    + exists w'. split; [exact Hrun |]. split; [exact Htr |].
      rewrite Hl. vm_compute; reflexivity.
  - destruct (duplicate_delivery_acked string Sample.dumps (Sample.flaky 0)
                Sample.worker "t1" Sample.task_t1 Sample.processing
                Sample.raw_t1 (Sample.world0 Sample.fetched_t1_locked))
      as (w' & Hrun & Htr & _ & Hl & _).
    + right. left. vm_compute; reflexivity.
    + exists w'. split; [exact Hrun |]. split; [exact Htr |].
      rewrite Hl. vm_compute; reflexivity.
Defined.

(** An object without id in the high queue: the scan leaves it in the
    processing list and returns the task of the medium queue. *)
Lemma idless_object_stays_until_recovery_witness :
  let r := TaskProcessor.safe_fetch Sample.loads TaskProcessor.default_queues
             Sample.processing Sample.noid_then_t1 in
  r = TaskProcessor.safe_fetch Sample.loads
        ["tasks:medium"; "tasks:low"; "tasks:default"] Sample.processing
        (snd (Redis.rpoplpush "tasks:high" Sample.processing
                Sample.noid_then_t1)) /\
  Sample.raw_noid ∈ Redis.lrange Sample.processing (snd r).
Proof.
  intros r.
  destruct (idless_object_stays_until_recovery string Sample.loads
              Sample.dumps Sample.format_value (Sample.flaky 0) Sample.worker
              "tasks:high" ["tasks:medium"; "tasks:low"; "tasks:default"]
              Sample.processing Sample.noid_then_t1 [] Sample.raw_noid
              [("phase", JStr "x")])
    as (Hstep & _ & Hin & _).
  - vm_compute; reflexivity.
  - discriminate.
  - vm_compute; reflexivity.
  - intros id Hid. discriminate.
  - split; [exact Hstep | exact Hin].
Defined.

(** C10.  The code does not do what the claim says for a record that
    parses to something other than an object.  Whatever the parser, when
    the tail of the queue the scan visits is such a record, [safe_fetch]
    moves it to the head of the processing list and returns None there and
    then: the queues that follow are not visited, whatever they hold.  The
    leftover pass that finds such a record at the head of the processing
    list never removes it and never ends.  For [[1]] in the high queue and
    [t1] in the medium queue: [safe_fetch] returns None, [t1] is still in
    its queue, the array is in the processing list, and the leftover pass
    does not get past it, whereas with an object without id in place of the
    array the scan goes on and returns [t1]. *)
Theorem nonobject_record_aborts_scan :
  (forall (json_loads : string -> option json) q rest pq s init raw v,
     Redis.lrange q s = init ++ [raw] ->
     raw ≠ "" ->
     json_loads raw = Some v ->
     (forall data, v ≠ JObj data) ->
     TaskProcessor.safe_fetch json_loads (q :: rest) pq s
       = (None, snd (Redis.rpoplpush q pq s)) /\
     head (Redis.lrange pq (snd (Redis.rpoplpush q pq s))) = Some raw /\
     (forall k, k ≠ q -> k ≠ pq ->
        Redis.lrange k (snd (Redis.rpoplpush q pq s)) = Redis.lrange k s)) /\
  (forall (result : Type) (json_loads : string -> option json)
          (json_dumps : result -> string + string) format_value
          (E : env result) (self : t) fuel pq raw v w,
     Redis.lindex0 pq (store w) = Some raw ->
     raw ≠ "" ->
     json_loads raw = Some v ->
     (forall data, v ≠ JObj data) ->
     process_leftovers result json_loads json_dumps format_value E self
       fuel pq w = None) /\
  (let r := TaskProcessor.safe_fetch Sample.loads TaskProcessor.default_queues
              Sample.processing Sample.array_then_t1 in
   Sample.loads Sample.raw_array = Some (JArr [JInt 1]) /\
   fst r = None /\
   Redis.lrange "tasks:medium" (snd r) = [Sample.raw_t1] /\
   Redis.lrange Sample.processing (snd r) = [Sample.raw_array] /\
   (forall fuel,
      process_leftovers string Sample.loads Sample.dumps Sample.format_value
        (Sample.flaky 0) Sample.worker fuel Sample.processing
        (Sample.world0 (snd r)) = None)) /\
  (let r := TaskProcessor.safe_fetch Sample.loads TaskProcessor.default_queues
              Sample.processing Sample.noid_then_t1 in
   TaskProcessor.f_raw <$> fst r = Some Sample.raw_t1 /\
   Redis.lrange Sample.processing (snd r) = [Sample.raw_t1; Sample.raw_noid]).
Proof.
  split; [| split; [| split]].
  - intros json_loads q rest pq s init raw v Hq Hraw Hload Hv.
    unfold TaskProcessor.safe_fetch. cbn [TaskProcessor.safe_fetch_from].
    rewrite (rpoplpush_snoc _ _ _ _ _ Hq). cbn [snd].
    apply String.eqb_neq in Hraw. rewrite Hraw, Hload.
    split; [| split].
    + destruct v; try reflexivity. by destruct (Hv fields).
    + by rewrite lrange_put_list_eq.
    + intros k Hk1 Hk2. by rewrite !lrange_put_list_ne.
  - intros result json_loads json_dumps format_value E self fuel pq raw v w
      Hhead Hraw Hload Hv.
    by apply process_leftovers_stuck with (raw := raw) (v := v).
  - intros r. split; [vm_compute; reflexivity |].
    split; [vm_compute; reflexivity |]. split; [vm_compute; reflexivity |].
    split; [vm_compute; reflexivity |].
    intros fuel.
    apply process_leftovers_stuck with (raw := Sample.raw_array) (v := JArr [JInt 1]);
      [vm_compute; reflexivity | discriminate | vm_compute; reflexivity
      | discriminate].
  - vm_compute. done.
Qed.

End Instances.

(** * Further properties of the same code *)

(** ** The life of a lock *)

Section LockLifecycle.

Implicit Types (s : Redis.store) (now : Q) (ttl : Z).

Lemma live_after_acquire now resource_id owner_id ttl s :
  fst (StateSynchronizer.acquire_lock now resource_id owner_id ttl s) = true ->
  Redis.strs (snd (StateSynchronizer.acquire_lock now resource_id owner_id ttl s))
    !! StateSynchronizer.lock_key resource_id
    = Some (owner_id, (now + inject_Z ttl)%Q).
Proof.
  intros Hok. pose proof (acquire_lock_accepted _ _ _ _ _ Hok) as Hacc.
  revert Hok. rewrite acquire_lock_unfold by done.
  destruct (Redis.live now _ s); [discriminate |].
  intros _. cbn. by rewrite lookup_insert_eq.
Qed.

(** X1. Once [acquire_lock] has succeeded, every [acquire_lock] for the
    same resource issued before the lease runs out answers false and leaves
    the store as it is, whoever asks and whatever TTL is asked for; the
    stored owner is the first one. *)
Theorem acquire_excludes_until_expiry
    now now' resource_id owner_id other_id ttl ttl' s :
  0 < ttl ->
  fst (StateSynchronizer.acquire_lock now resource_id owner_id ttl s) = true ->
  (now' < now + inject_Z ttl)%Q ->
  let s1 := snd (StateSynchronizer.acquire_lock now resource_id owner_id ttl s) in
  StateSynchronizer.acquire_lock now' resource_id other_id ttl' s1 = (false, s1) /\
  Redis.get now' (StateSynchronizer.lock_key resource_id) s1 = Some owner_id.
Proof.
  intros Httl Hok Hlt s1.
  pose proof (live_after_acquire now resource_id owner_id ttl s Hok) as Hk.
  fold s1 in Hk. apply unexpired_lt in Hlt.
  split.
  - apply acquire_lock_live. unfold Redis.live. by rewrite Hk, Hlt.
  - unfold Redis.get. by rewrite Hk, Hlt.
Qed.


(** X3. [acquire_lock] followed by [release_lock] of the same owner within
    the lease removes the lock key and nothing else: every other key, the
    lists, the hashes and the publications are those of the store before the
    acquire, and the next [acquire_lock] succeeds for any owner, at any
    instant and with any TTL the server accepts. *)
Theorem acquire_release_round_trip
    now now' resource_id owner_id ttl s :
  0 < ttl ->
  fst (StateSynchronizer.acquire_lock now resource_id owner_id ttl s) = true ->
  (now' < now + inject_Z ttl)%Q ->
  let key := StateSynchronizer.lock_key resource_id in
  let s1 := snd (StateSynchronizer.acquire_lock now resource_id owner_id ttl s) in
  let s2 := StateSynchronizer.release_lock now' resource_id owner_id s1 in
  Redis.strs s2 = delete key (Redis.strs s) /\
  Redis.live now' key s2 = false /\
  (forall k, k ≠ key -> Redis.strs s2 !! k = Redis.strs s !! k) /\
  Redis.lsts s2 = Redis.lsts s /\ Redis.hshs s2 = Redis.hshs s /\
  Redis.pubs s2 = Redis.pubs s /\
  forall now'' other_id ttl'',
    fst (StateSynchronizer.acquire_lock now'' resource_id other_id ttl'' s2)
    = Redis.accepts_ex now'' ttl''.
Proof.
  intros Httl Hok Hlt key s1 s2.
  pose proof (acquire_lock_accepted _ _ _ _ _ Hok) as Hacc.
  assert (Hs1 : s1 = Redis.Store (<[key := (owner_id, (now + inject_Z ttl)%Q)]> (Redis.strs s))
                       (Redis.lsts s) (Redis.hshs s) (Redis.pubs s)).
  { subst s1. revert Hok. rewrite acquire_lock_unfold by done.
    by destruct (Redis.live now _ s). }
  apply unexpired_lt in Hlt.
  assert (Hs2 : s2 = Redis.Store (delete key (Redis.strs s))
                       (Redis.lsts s) (Redis.hshs s) (Redis.pubs s)).
  { subst s2. rewrite Hs1. unfold StateSynchronizer.release_lock, Redis.get.
    fold key. cbn [Redis.strs]. rewrite lookup_insert_eq, Hlt.
    rewrite decide_True by done. unfold Redis.delete. cbn.
    by rewrite delete_insert_eq. }
  rewrite Hs2. cbn [Redis.strs Redis.lsts Redis.hshs Redis.pubs].
  split; [done |]. split.
  { unfold Redis.live. cbn. by rewrite lookup_delete_eq. }
  split; [intros k Hk; by rewrite lookup_delete_ne |].
  do 3 (split; [done |]).
  intros now'' other_id ttl''.
  destruct (Redis.accepts_ex now'' ttl'') eqn:Hacc''.
  - rewrite acquire_lock_unfold by done.
    unfold Redis.live. fold key. cbn. by rewrite lookup_delete_eq.
  - by rewrite acquire_lock_rejected.
Qed.

End LockLifecycle.

(** ** Heartbeat and state *)

Section StateFacts.

Implicit Types (s : Redis.store) (now : Q).

Lemma string_app_inj_r (a b c : string) : a +:+ c = b +:+ c -> a = b.
Proof.
  revert b. induction a as [|x a IH]; intros [|y b] H; simpl in H.
  - reflexivity.
  - apply (f_equal String.length) in H. simpl in H.
    rewrite !string_length_app in H. simpl in H. lia.
  - apply (f_equal String.length) in H. simpl in H.
    rewrite !string_length_app in H. simpl in H. lia.
  - injection H as -> H. f_equal. by apply IH.
Qed.

Lemma state_key_inj (a b : string) : state_key a = state_key b -> a = b.
Proof.
  unfold state_key. simpl. intros H. injection H as H.
  by apply (string_app_inj_r a b ":state").
Qed.

Lemma hshs_heartbeat now task_id s :
  task_id ≠ "" ->
  Redis.hshs (RedisManager.heartbeat now task_id s) =
    <[state_key task_id :=
        {["last_update" := Redis.HTime now]} ∪ Redis.hgetall (state_key task_id) s]>
      (Redis.hshs s).
Proof.
  intros Hne. unfold RedisManager.heartbeat. rewrite decide_False by done.
  unfold Redis.expire. cbn [Redis.strs Redis.hset].
  destruct (Redis.strs s !! RedisManager.lock_key task_id) as [[v exp]|];
    [| reflexivity].
  destruct (Redis.unexpired now exp); [| reflexivity].
  by rewrite bool_decide_eq_false_2 by lia.
Qed.

Lemma pubs_heartbeat now task_id s :
  Redis.pubs (RedisManager.heartbeat now task_id s) = Redis.pubs s.
Proof.
  unfold RedisManager.heartbeat.
  destruct (decide (task_id = "")); [reflexivity |].
  unfold Redis.expire. cbn [Redis.strs Redis.hset].
  destruct (Redis.strs s !! RedisManager.lock_key task_id) as [[v exp]|];
    [| reflexivity].
  destruct (Redis.unexpired now exp); [| reflexivity].
  by rewrite bool_decide_eq_false_2 by lia.
Qed.

Lemma field_heartbeat now task_id k f s :
  f ≠ "last_update" ->
  Redis.hgetall k (RedisManager.heartbeat now task_id s) !! f
  = Redis.hgetall k s !! f.
Proof.
  intros Hf. destruct (decide (task_id = "")) as [->|Hne]; [reflexivity |].
  unfold Redis.hgetall at 1. rewrite hshs_heartbeat by done.
  destruct (decide (state_key task_id = k)) as [<-|Hk].
  - rewrite lookup_insert_eq. cbn.
    rewrite lookup_union_r; [done |]. by rewrite lookup_singleton_ne.
  - by rewrite lookup_insert_ne.
Qed.

Lemma strs_heartbeat_live now task_id owner exp s :
  task_id ≠ "" ->
  Redis.strs s !! RedisManager.lock_key task_id = Some (owner, exp) ->
  (now < exp)%Q ->
  Redis.strs (RedisManager.heartbeat now task_id s) !! RedisManager.lock_key task_id
  = Some (owner, (now + inject_Z 300)%Q).
Proof.
  intros Hne Hk Hlt. apply unexpired_lt in Hlt.
  unfold RedisManager.heartbeat. rewrite decide_False by done.
  unfold Redis.expire. cbn [Redis.strs Redis.hset].
  rewrite Hk, Hlt. rewrite bool_decide_eq_false_2 by lia.
  cbn. by rewrite lookup_insert_eq.
Qed.

(** X4. One beat for a task id that is not empty: a live record under
    [lock:task:<id>] keeps its owner and gets the expiry [now + 300],
    whatever TTL it was created with; without a live record the string keys
    are left alone, so a beat neither creates nor revives a lock; and the
    state hash of the task has [last_update = now] afterwards. *)
Theorem heartbeat_effect now task_id s :
  task_id ≠ "" ->
  let key := RedisManager.lock_key task_id in
  let s' := RedisManager.heartbeat now task_id s in
  (forall owner exp,
     Redis.strs s !! key = Some (owner, exp) -> (now < exp)%Q ->
     Redis.strs s' !! key = Some (owner, (now + inject_Z 300)%Q)) /\
  (Redis.live now key s = false -> Redis.strs s' = Redis.strs s) /\
  StateSynchronizer.get_state task_id s' !! "last_update"
    = Some (Redis.HTime now).
Proof.
  intros Hne key s'. subst s'. split; [| split].
  - intros owner exp Hk Hlt. by apply strs_heartbeat_live with (exp := exp).
  - unfold Redis.live. intros Hl.
    unfold RedisManager.heartbeat. rewrite decide_False by done.
    unfold Redis.expire. cbn [Redis.strs Redis.hset]. fold key.
    destruct (Redis.strs s !! key) as [[v exp]|]; [| done].
    by rewrite Hl.
  - unfold StateSynchronizer.get_state, Redis.hgetall.
    rewrite hshs_heartbeat by done. rewrite lookup_insert_eq. cbn.
    apply lookup_union_Some_l. by rewrite lookup_singleton_eq.
Qed.

(** X5. However many beats the heartbeat loop runs, it changes no list and
    publishes nothing, it leaves every string key other than
    [lock:task:<id>] as it is, and in every hash it leaves every field other
    than [last_update] as it is; in particular no task becomes or stops
    being [completed] through it. *)
Theorem heartbeat_loop_frame rounds start task_id s :
  let s' := CourseSystem.heartbeat_loop rounds start task_id s in
  Redis.lsts s' = Redis.lsts s /\
  Redis.pubs s' = Redis.pubs s /\
  (forall k, k ≠ RedisManager.lock_key task_id ->
     Redis.strs s' !! k = Redis.strs s !! k) /\
  (forall k f, f ≠ "last_update" ->
     Redis.hgetall k s' !! f = Redis.hgetall k s !! f) /\
  (forall tid,
     CourseSystem.is_completed (StateSynchronizer.get_state tid s')
     = CourseSystem.is_completed (StateSynchronizer.get_state tid s)).
Proof.
  cbn zeta. revert start s. induction rounds as [|n IH]; intros start s; [done |].
  cbn [CourseSystem.heartbeat_loop].
  destruct (IH (start + 10)%Q (RedisManager.heartbeat start task_id s))
    as (Hl & Hp & Hs & Hh & Hc).
  split; [by rewrite Hl, lsts_heartbeat |].
  split; [by rewrite Hp, pubs_heartbeat |].
  split; [intros k Hk; by rewrite Hs, strs_heartbeat_other |].
  assert (Hf : forall k f, f ≠ "last_update" ->
     Redis.hgetall k (CourseSystem.heartbeat_loop n (start + 10)%Q task_id
                        (RedisManager.heartbeat start task_id s)) !! f
     = Redis.hgetall k s !! f).
  { intros k f Hf. by rewrite Hh, field_heartbeat. }
  split; [exact Hf |].
  intros tid. unfold CourseSystem.is_completed, StateSynchronizer.get_state.
  by rewrite Hf.
Qed.

Lemma get_state_sync now wid tid status data s :
  StateSynchronizer.get_state tid
    (StateSynchronizer.sync_state now wid tid status data s)
  = (data ∪
     <["status" := Redis.HStr status]>
     (<["last_update" := Redis.HTime now]>
     (<["retry_count" := Redis.HInt 0]>
     (<["worker_id" := Redis.HStr wid]> ∅))))
    ∪ StateSynchronizer.get_state tid s.
Proof.
  unfold StateSynchronizer.get_state, Redis.hgetall. cbn.
  by rewrite lookup_insert_eq.
Qed.

(** X6. After [sync_state], [get_state] of the same task returns every
    field of [data]; where [data] does not set them, [status] is the given
    status, [retry_count] is 0, [worker_id] is the writer and [last_update]
    is the instant of the call; any other field an earlier update wrote is
    still there.  Exactly one event is published, on [task_status_updates];
    locks, lists and the state of every other task are untouched. *)
Theorem sync_state_round_trip now wid tid status data s :
  let s' := StateSynchronizer.sync_state now wid tid status data s in
  let st := StateSynchronizer.get_state tid s' in
  (forall f v, data !! f = Some v -> st !! f = Some v) /\
  (data !! "status" = None -> st !! "status" = Some (Redis.HStr status)) /\
  (data !! "retry_count" = None -> st !! "retry_count" = Some (Redis.HInt 0)) /\
  (data !! "worker_id" = None -> st !! "worker_id" = Some (Redis.HStr wid)) /\
  (data !! "last_update" = None -> st !! "last_update" = Some (Redis.HTime now)) /\
  (forall f,
     data !! f = None -> f ≠ "status" -> f ≠ "last_update" ->
     f ≠ "retry_count" -> f ≠ "worker_id" ->
     st !! f = StateSynchronizer.get_state tid s !! f) /\
  Redis.pubs s' = Redis.pubs s ++
    [("task_status_updates", Redis.StatusEvent tid status now)] /\
  Redis.strs s' = Redis.strs s /\ Redis.lsts s' = Redis.lsts s /\
  (forall tid', tid' ≠ tid ->
     StateSynchronizer.get_state tid' s' = StateSynchronizer.get_state tid' s).
Proof.
  intros s' st. subst st s'. rewrite get_state_sync.
  split; [| split; [| split; [| split; [| split; [| split]]]]].
  - intros f v Hd. apply lookup_union_Some_l. by apply lookup_union_Some_l.
  - intros Hd. apply lookup_union_Some_l.
    rewrite lookup_union_r by done. by rewrite lookup_insert_eq.
  - intros Hd. apply lookup_union_Some_l.
    rewrite lookup_union_r by done. by simplify_map_eq.
  - intros Hd. apply lookup_union_Some_l.
    rewrite lookup_union_r by done. by simplify_map_eq.
  - intros Hd. apply lookup_union_Some_l.
    rewrite lookup_union_r by done. by simplify_map_eq.
  - intros f Hd H1 H2 H3 H4. rewrite lookup_union_r; [done |].
    rewrite lookup_union_r by done. by simplify_map_eq.
  - split; [reflexivity |]. split; [reflexivity |]. split; [reflexivity |].
    intros tid' Hne. unfold StateSynchronizer.get_state, Redis.hgetall. cbn.
    rewrite lookup_insert_ne; [done |]. intros H. by apply state_key_inj in H.
Qed.

End StateFacts.

(** ** Edges of the queue *)

Section QueueEdges.

Implicit Types (s : Redis.store) (k : string) (l : list string).

Lemma remove_first_absent v l : v ∉ l -> Redis.remove_first v l = l.
Proof.
  induction l as [|x l IH]; simpl; [done |].
  rewrite not_elem_of_cons. intros [Hne Hl].
  rewrite decide_False by done. by rewrite IH.
Qed.

Lemma remove_first_length v l :
  v ∈ l -> S (length (Redis.remove_first v l)) = length l.
Proof.
  induction l as [|x l IH]; simpl; [by intros ?%elem_of_nil |].
  destruct (decide (x = v)); [done |].
  rewrite elem_of_cons. intros [->|Hin]; [done |]. simpl. by rewrite IH.
Qed.

Lemma rpoplpush_other src dst k s :
  k ≠ src -> k ≠ dst ->
  Redis.lrange k (snd (Redis.rpoplpush src dst s)) = Redis.lrange k s.
Proof.
  intros Hs Hd.
  destruct (rpoplpush_cases src dst s) as [[_ ->]|(init & x & _ & ->)]; [done |].
  cbn [snd]. by rewrite !lrange_put_list_ne.
Qed.

Lemma rpoplpush_rest src dst s :
  Redis.strs (snd (Redis.rpoplpush src dst s)) = Redis.strs s /\
  Redis.hshs (snd (Redis.rpoplpush src dst s)) = Redis.hshs s /\
  Redis.pubs (snd (Redis.rpoplpush src dst s)) = Redis.pubs s.
Proof.
  by destruct (rpoplpush_cases src dst s) as [[_ ->]|(init & x & _ & ->)].
Qed.

Section Parser.

Variable json_loads : string -> option json.

Lemma safe_fetch_from_other_lists queues pq s k :
  k ∉ queues -> k ≠ pq ->
  Redis.lrange k (snd (TaskProcessor.safe_fetch_from json_loads queues pq s))
  = Redis.lrange k s.
Proof.
  intros Hq Hp. revert s.
  induction queues as [|q rest IH]; intros s; simpl; [done |].
  apply not_elem_of_cons in Hq as [Hkq Hrest].
  pose proof (rpoplpush_other q pq k s Hkq Hp) as Ho.
  destruct (Redis.rpoplpush q pq s) as [[x|] s1]; cbn [snd] in Ho;
    [| by rewrite IH].
  destruct (String.eqb x ""); [by rewrite IH |].
  destruct (json_loads x) as [[| | | | | |data]|]; try done.
  - destruct (dict_get "id" data) as [v|]; [| by rewrite IH].
    destruct (truthy v); [done | by rewrite IH].
  - rewrite IH by done. unfold Redis.lrem1. by rewrite lrange_put_list_ne.
Qed.

Lemma safe_fetch_from_rest queues pq s :
  Redis.strs (snd (TaskProcessor.safe_fetch_from json_loads queues pq s)) = Redis.strs s /\
  Redis.hshs (snd (TaskProcessor.safe_fetch_from json_loads queues pq s)) = Redis.hshs s /\
  Redis.pubs (snd (TaskProcessor.safe_fetch_from json_loads queues pq s)) = Redis.pubs s.
Proof.
  revert s. induction queues as [|q rest IH]; intros s; simpl; [done |].
  pose proof (rpoplpush_rest q pq s) as Ho.
  destruct (Redis.rpoplpush q pq s) as [[x|] s1]; cbn [snd] in Ho.
  2: { destruct (IH s1) as (-> & -> & ->). done. }
  destruct (String.eqb x "");
    [destruct (IH s1) as (-> & -> & ->); done |].
  destruct (json_loads x) as [[| | | | | |data]|]; try done.
  - destruct (dict_get "id" data) as [v|];
      [| destruct (IH s1) as (-> & -> & ->); done].
    destruct (truthy v); [done | destruct (IH s1) as (-> & -> & ->); done].
  - destruct (IH (Redis.lrem1 pq x s1)) as (-> & -> & ->). done.
Qed.

(** X7. [safe_fetch] changes no string key, no hash and no publication,
    and no list other than the queues it scans and its processing list; when
    all the queues it scans are empty it returns None and the store it was
    given. *)
Theorem safe_fetch_frame queues pq s :
  let r := TaskProcessor.safe_fetch json_loads queues pq s in
  Redis.strs (snd r) = Redis.strs s /\
  Redis.hshs (snd r) = Redis.hshs s /\
  Redis.pubs (snd r) = Redis.pubs s /\
  (forall k, k ∉ queues -> k ≠ pq -> Redis.lrange k (snd r) = Redis.lrange k s) /\
  ((forall k, k ∈ queues -> Redis.lrange k s = []) -> r = (None, s)).
Proof.
  intros r. subst r. unfold TaskProcessor.safe_fetch.
  destruct (safe_fetch_from_rest queues pq s) as (H1 & H2 & H3).
  do 3 (split; [done |]).
  split; [intros; by apply safe_fetch_from_other_lists |].
  intros He. rewrite <- (app_nil_r queues).
  by rewrite safe_fetch_from_skip_empty.
Qed.

(** X8. Within a queue [safe_fetch] is last in, first out: right after a
    well-formed task is enqueued (RPUSH) in the first non-empty queue,
    [safe_fetch] (RPOP) returns that task, and the records that were waiting
    in the queue before it are still waiting. *)
Theorem safe_fetch_takes_newest
    (pre post : list string) (q pq : string) (s : Redis.store)
    (raw : string) (data : list (string * json)) (id : json) :
  (forall k, k ∈ pre -> Redis.lrange k s = []) ->
  q ∉ pre -> q ≠ pq ->
  raw ≠ "" ->
  json_loads raw = Some (JObj data) ->
  dict_get "id" data = Some id ->
  truthy id = true ->
  let r := TaskProcessor.safe_fetch json_loads (pre ++ q :: post) pq
             (TaskProcessor.enqueue q raw s) in
  fst r = Some (TaskProcessor.Fetched id data q raw) /\
  Redis.lrange q (snd r) = Redis.lrange q s /\
  Redis.lrange pq (snd r) = raw :: Redis.lrange pq s.
Proof.
  intros Hpre Hq Hne Hraw Hload Hid Ht r. subst r.
  unfold TaskProcessor.safe_fetch, TaskProcessor.enqueue, Redis.rpush.
  rewrite safe_fetch_from_skip_empty.
  2: { intros k Hk. rewrite lrange_put_list_ne; [by apply Hpre |].
       intros ->. done. }
  simpl.
  rewrite (rpoplpush_snoc q pq _ (Redis.lrange q s) raw)
    by apply lrange_put_list_eq.
  apply String.eqb_neq in Hraw. rewrite Hraw, Hload, Hid, Ht. cbn [fst snd].
  split; [done |]. split.
  - rewrite lrange_put_list_ne by done. by rewrite lrange_put_list_eq.
  - rewrite lrange_put_list_eq. by rewrite !lrange_put_list_ne.
Qed.

(** X9. A record at the tail of the scanned queue that fails to parse is
    dropped: it leaves the queue, the processing list is what it was before,
    no other list changes, the scan goes on with the queues that follow, and
    the record is not what [safe_fetch] returns. *)
Theorem safe_fetch_drops_malformed
    (q : string) (rest : list string) (pq : string) (s : Redis.store)
    (init : list string) (raw : string) :
  Redis.lrange q s = init ++ [raw] ->
  raw ≠ "" ->
  json_loads raw = None ->
  q ≠ pq ->
  let s2 := Redis.lrem1 pq raw (snd (Redis.rpoplpush q pq s)) in
  TaskProcessor.safe_fetch json_loads (q :: rest) pq s
    = TaskProcessor.safe_fetch json_loads rest pq s2 /\
  Redis.lrange q s2 = init /\
  Redis.lrange pq s2 = Redis.lrange pq s /\
  (forall k, k ≠ q -> k ≠ pq -> Redis.lrange k s2 = Redis.lrange k s) /\
  (forall f, fst (TaskProcessor.safe_fetch json_loads (q :: rest) pq s) = Some f ->
     TaskProcessor.f_raw f ≠ raw).
Proof.
  intros Hq Hraw Hload Hne s2.
  assert (Hstep : TaskProcessor.safe_fetch json_loads (q :: rest) pq s
                  = TaskProcessor.safe_fetch json_loads rest pq s2).
  { unfold TaskProcessor.safe_fetch. cbn [TaskProcessor.safe_fetch_from].
    subst s2. rewrite (rpoplpush_snoc _ _ _ _ _ Hq).
    apply String.eqb_neq in Hraw. by rewrite Hraw, Hload. }
  split; [exact Hstep |]. subst s2.
  rewrite (rpoplpush_snoc _ _ _ _ _ Hq). cbn [snd]. unfold Redis.lrem1.
  rewrite !(lrange_put_list_eq pq), remove_first_head.
  split; [| split; [| split]].
  - rewrite !lrange_put_list_ne by done. by rewrite lrange_put_list_eq.
  - by rewrite lrange_put_list_ne.
  - intros k H1 H2. by rewrite !lrange_put_list_ne.
  - intros f Hf Heq.
    destruct (TaskProcessor.safe_fetch json_loads (q :: rest) pq s)
      as [o s'] eqn:Hr. cbn [fst] in Hf. subst o.
    destruct (safe_fetch_from_fetched json_loads _ _ _ _ _ Hr)
      as (_ & _ & _ & Hl & _).
    congruence.
Qed.

Lemma blpop_skip_empty pre rest s :
  (forall k, k ∈ pre -> Redis.lrange k s = []) ->
  Redis.blpop (pre ++ rest) s = Redis.blpop rest s.
Proof.
  induction pre as [|k pre IH]; intros He; simpl; [done |].
  rewrite (He k) by (apply elem_of_cons; by left).
  apply IH. intros k' Hk'. apply He, elem_of_cons. by right.
Qed.

(** X10. [fetch_task] pops the head (the oldest record) of the first
    non-empty queue and nothing else changes.  It returns the task when the
    record is an object with a truthy id; for any other record (malformed,
    not an object, without id) it returns None, and the record, already
    popped, is in no list any more. *)
Theorem fetch_task_pops_head
    (pre post : list string) (q : string) (s : Redis.store)
    (raw : string) (l : list string) :
  (forall k, k ∈ pre -> Redis.lrange k s = []) ->
  Redis.lrange q s = raw :: l ->
  let r := TaskProcessor.fetch_task json_loads (pre ++ q :: post) s in
  snd r = Redis.put_list q l s /\
  Redis.lrange q (snd r) = l /\
  (forall k, k ≠ q -> Redis.lrange k (snd r) = Redis.lrange k s) /\
  (forall data id,
     json_loads raw = Some (JObj data) -> dict_get "id" data = Some id ->
     truthy id = true -> fst r = Some (id, data, q)) /\
  ((forall data id,
      json_loads raw = Some (JObj data) -> dict_get "id" data = Some id ->
      truthy id = false) ->
   fst r = None).
Proof.
  intros Hpre Hq r. subst r. unfold TaskProcessor.fetch_task.
  rewrite blpop_skip_empty by done. simpl. rewrite Hq.
  destruct (json_loads raw) as [[| | | | | |data]|] eqn:Hload; cbn [fst snd];
    try (split; [done |]; split; [apply lrange_put_list_eq |];
         split; [intros k Hk; by apply lrange_put_list_ne |];
         split; [intros; discriminate | done]).
  destruct (dict_get "id" data) as [v|] eqn:Hid.
  - destruct (truthy v) eqn:Hv; cbn [fst snd].
    + split; [done |]. split; [apply lrange_put_list_eq |].
      split; [intros k Hk; by apply lrange_put_list_ne |].
      split; [intros d i [= <-] Hi Ht; congruence |].
      intros H. specialize (H data v eq_refl Hid). congruence.
    + split; [done |]. split; [apply lrange_put_list_eq |].
      split; [intros k Hk; by apply lrange_put_list_ne |].
      split; [intros d i [= <-] Hi Ht; congruence | done].
  - cbn [fst snd]. split; [done |]. split; [apply lrange_put_list_eq |].
    split; [intros k Hk; by apply lrange_put_list_ne |].
    split; [intros d i [= <-] Hi Ht; congruence | done].
Qed.

End Parser.

(** X11. [ack_task] removes by the re-serialised text: when
    [json.dumps(task_data)] does not occur in the processing list the list
    is left as it is; when it occurs, one entry goes.  A list holding the one
    raw text is emptied exactly when the re-serialisation equals that text. *)
Theorem ack_task_by_text
    (json_dumps : list (string * json) -> string)
    (pq : string) (task_data : list (string * json)) (s : Redis.store) :
  let s' := TaskProcessor.ack_task json_dumps pq task_data s in
  (json_dumps task_data ∉ Redis.lrange pq s ->
     Redis.lrange pq s' = Redis.lrange pq s) /\
  (json_dumps task_data ∈ Redis.lrange pq s ->
     S (length (Redis.lrange pq s')) = length (Redis.lrange pq s)) /\
  (forall raw, Redis.lrange pq s = [raw] ->
     (Redis.lrange pq s' = [] <-> json_dumps task_data = raw)).
Proof.
  intros s'. subst s'. unfold TaskProcessor.ack_task, Redis.lrem1.
  rewrite lrange_put_list_eq. split; [apply remove_first_absent |].
  split; [apply remove_first_length |].
  intros raw ->. simpl. destruct (decide (raw = json_dumps task_data)) as [->|Hne].
  - done.
  - split; [discriminate | congruence].
Qed.

End QueueEdges.

(** ** A whole pass *)

Section PassFacts.

Import CourseSystem.

Variable result : Type.
Variable json_loads : string -> option json.
Variable json_dumps : result -> string + string.
Variable format_value : json -> string.
Variable E : env result.
Variable self : t.

Local Abbreviation n_max :=
  (Z.to_nat (RetryManager.max_retries (retry_manager self))).

Lemma retry_loop_bounds fuel : forall tid td retries w res w1,
  retry_loop result E self fuel tid td retries w = Some (res, w1) ->
  exists mid,
    trace w1 = trace w ++ mid /\
    (1 <= length (List.filter is_execute mid)
       <= S (Z.to_nat (RetryManager.max_retries (retry_manager self) - retries)))%nat /\
    S (length (List.filter is_sleep mid))
      = length (List.filter is_execute mid) /\
    Forall (sleep_within (RetryManager.max_delay (retry_manager self))) mid /\
    Redis.strs (store w1) = Redis.strs (store w) /\
    Redis.lsts (store w1) = Redis.lsts (store w).
Proof.
  induction fuel as [|fuel IH]; intros tid td retries w res w1; [discriminate |].
  simpl. destruct (execute E (cursor w)) as [r took|e took] eqn:He.
  - intros [= <- <-]. exists [EvExecute td]. cbn.
    repeat split; try done; try lia. by repeat constructor.
  - unfold RetryManager.should_retry. case_bool_decide as Hlt.
    + intros Hrun. apply IH in Hrun as (mid & Htr & Hn & Hs & Hq & Hstr & Hl).
      eexists (_ :: _ :: _ :: mid). split; [| split; [| split; [| split]]].
      * rewrite Htr. cbn. rewrite <- !app_assoc. reflexivity.
      * cbn. lia.
      * cbn. lia.
      * repeat constructor; [| done]. apply Q.le_min_r.
      * rewrite Hstr, Hl. done.
    + intros [= <- <-]. exists [EvExecute td]. cbn.
      repeat split; try done; try lia. by repeat constructor.
Qed.

(** X12. Whatever the Executor does, [_process_task_with_retry] returns
    after at least one and at most [max_retries + 1] calls of the Executor;
    it sleeps once between two consecutive calls, and no sleep is longer
    than [max_delay]. *)
Theorem retry_attempts_bounded tid td w :
  exists res w1 mid,
    process_task_with_retry result E self tid td w = Some (res, w1) /\
    trace w1 = trace w ++ mid /\
    (1 <= length (List.filter is_execute mid) <= S n_max)%nat /\
    S (length (List.filter is_sleep mid))
      = length (List.filter is_execute mid) /\
    Forall (sleep_within (RetryManager.max_delay (retry_manager self))) mid.
Proof.
  destruct (process_task_with_retry_total result E self tid td w)
    as (res & w1 & mid0 & Hrun & _).
  pose proof Hrun as Hb. apply retry_loop_bounds in Hb
    as (mid & Htr & Hn & Hs & Hq & _).
  rewrite Z.sub_0_r in Hn.
  exists res, w1, mid. done.
Qed.





Variable render : Redis.hval -> string.




End PassFacts.

(** ** The worker loop and recovery *)

Section StepFacts.

Import CourseSystem.

Variable result : Type.
Variable json_loads : string -> option json.
Variable json_dumps : result -> string + string.
Variable format_value : json -> string.
Variable E : env result.
Variable self : t.

Lemma lrange_lsts s s' k :
  Redis.lsts s' = Redis.lsts s -> Redis.lrange k s' = Redis.lrange k s.
Proof. unfold Redis.lrange. by intros ->. Qed.

Lemma lrange_remove_from_processing pq raw k (w : world) :
  Redis.lrange k (store (remove_from_processing pq raw w))
  = if decide (pq = k) then Redis.remove_first raw (Redis.lrange pq (store w))
    else Redis.lrange k (store w).
Proof.
  cbn. unfold TaskProcessor.remove_from_processing, Redis.lrem1.
  apply lrange_put_list.
Qed.

(** A pass that acknowledges: the processing list loses the first
    occurrence of the raw text and no other list changes. *)
Lemma handle_task_acks tid td pq raw w :
  thread_start E (cursor w) = true ->
  exists w',
    handle_task result json_dumps E self tid td pq raw w = Some w' /\
    forall k, Redis.lrange k (store w')
              = if decide (pq = k)
                then Redis.remove_first raw (Redis.lrange pq (store w))
                else Redis.lrange k (store w).
Proof.
  intros Ht.
  destruct (is_completed (StateSynchronizer.get_state tid (store w))) eqn:Hc.
  { exists (remove_from_processing pq raw w). split.
    - unfold handle_task. by rewrite Hc.
    - intros k. apply lrange_remove_from_processing. }
  destruct (fst (StateSynchronizer.acquire_lock (now w) tid (worker_id self)
                   300 (store w))) eqn:Ha.
  2: { exists (remove_from_processing pq raw w). split.
       - unfold handle_task. rewrite Hc.
         pose proof (acquire_lock_refused _ _ _ _ _ Ha) as Hs.
         destruct (StateSynchronizer.acquire_lock _ _ _ _ _) as [ok s1].
         cbn [fst snd] in *. subst ok s1. by rewrite with_store_same.
       - intros k. apply lrange_remove_from_processing. }
  rewrite handle_task_locked by done.
  set (w3 := sync_state self tid "running" ∅ _).
  destruct (process_task_with_retry_total result E self tid td w3)
    as (res & w4 & mid & -> & _ & _ & Hl).
  assert (Hl4 : Redis.lsts (store w4) = Redis.lsts (store w)).
  { rewrite Hl. subst w3. cbn. by rewrite lsts_acquire_lock. }
  assert (Hfin : forall wx, Redis.lsts (store wx) = Redis.lsts (store w) ->
            forall k, Redis.lrange k (store (finalize self tid pq raw wx))
              = if decide (pq = k)
                then Redis.remove_first raw (Redis.lrange pq (store w))
                else Redis.lrange k (store w)).
  { intros wx Hx k. cbn.
    unfold TaskProcessor.remove_from_processing, Redis.lrem1.
    rewrite lrange_put_list.
    rewrite !(lrange_lsts (store w) (StateSynchronizer.release_lock _ _ _ _))
      by (by rewrite lsts_release_lock). done. }
  destruct res as [r|err]; [destruct (json_dumps r) as [txt|err] |];
    (eexists; split; [reflexivity | apply Hfin; exact Hl4]).
Qed.

(** X14. One round of the worker loop, when the first non-empty queue has
    a well-formed task at its tail and the heartbeat thread can be started:
    the round returns, the task has left its queue, the processing list is
    what it was before the round, and no other list has changed, whether the
    task was executed, found completed, or found locked. *)
Theorem worker_step_restores_processing
    (pre post : list string) (q pq : string) (w : world)
    (init : list string) (raw : string) (data : list (string * json))
    (id : json) :
  (forall k, k ∈ pre -> Redis.lrange k (store w) = []) ->
  Redis.lrange q (store w) = init ++ [raw] ->
  raw ≠ "" ->
  json_loads raw = Some (JObj data) ->
  dict_get "id" data = Some id ->
  truthy id = true ->
  q ≠ pq ->
  thread_start E (cursor w) = true ->
  exists w',
    worker_step result json_loads json_dumps format_value E self
      (pre ++ q :: post) pq w = Some w' /\
    Redis.lrange q (store w') = init /\
    Redis.lrange pq (store w') = Redis.lrange pq (store w) /\
    (forall k, k ≠ q -> k ≠ pq ->
       Redis.lrange k (store w') = Redis.lrange k (store w)).
Proof.
  intros Hpre Hq Hraw Hload Hid Htruthy Hne Ht.
  unfold worker_step, TaskProcessor.safe_fetch.
  rewrite safe_fetch_from_skip_empty by done. simpl.
  rewrite (rpoplpush_snoc _ _ _ _ _ Hq).
  apply String.eqb_neq in Hraw. rewrite Hraw, Hload, Hid, Htruthy.
  cbn [TaskProcessor.f_task_id TaskProcessor.f_task_data TaskProcessor.f_raw].
  set (s1 := Redis.put_list pq _ _).
  destruct (handle_task_acks (id_text format_value id) (JObj data) pq raw
              (with_store s1 w) Ht) as (w' & Hrun & Hl).
  exists w'. split; [exact Hrun |].
  assert (Hpq : Redis.lrange pq s1 = raw :: Redis.lrange pq (store w)).
  { subst s1. rewrite lrange_put_list_eq. by rewrite lrange_put_list_ne. }
  split; [| split].
  - rewrite Hl, decide_False by done. cbn. subst s1.
    rewrite lrange_put_list_ne by done. by rewrite lrange_put_list_eq.
  - rewrite Hl, decide_True by done. cbn. rewrite Hpq. apply remove_first_head.
  - intros k H1 H2. rewrite Hl, decide_False by done. cbn. subst s1.
    by rewrite !lrange_put_list_ne.
Qed.

(** The pass that cannot start its heartbeat keeps the lock, and the next
    pass over the same task acknowledges it. *)
Lemma handle_task_twice tid td pq raw w :
  exists w',
    match handle_task result json_dumps E self tid td pq raw w with
    | Some w1 =>
        (forall k, Redis.lrange k (store w1)
              = if decide (pq = k)
                then Redis.remove_first raw (Redis.lrange pq (store w))
                else Redis.lrange k (store w)) /\ w' = w1
        \/
        (Redis.lsts (store w1) = Redis.lsts (store w) /\
         handle_task result json_dumps E self tid td pq raw w1 = Some w' /\
         forall k, Redis.lrange k (store w')
              = if decide (pq = k)
                then Redis.remove_first raw (Redis.lrange pq (store w))
                else Redis.lrange k (store w))
    | None => False
    end.
Proof.
  destruct (thread_start E (cursor w)) eqn:Ht.
  { destruct (handle_task_acks tid td pq raw w Ht) as (w' & -> & Hl).
    exists w'. left. done. }
  destruct (is_completed (StateSynchronizer.get_state tid (store w))) eqn:Hc.
  { exists (remove_from_processing pq raw w).
    unfold handle_task. rewrite Hc. left.
    split; [intros k; apply lrange_remove_from_processing | done]. }
  destruct (fst (StateSynchronizer.acquire_lock (now w) tid (worker_id self)
                   300 (store w))) eqn:Ha.
  2: { exists (remove_from_processing pq raw w).
       unfold handle_task. rewrite Hc.
       pose proof (acquire_lock_refused _ _ _ _ _ Ha) as Hs.
       destruct (StateSynchronizer.acquire_lock _ _ _ _ _) as [ok s1].
       cbn [fst snd] in *. subst ok s1. rewrite with_store_same. left.
       split; [intros k; apply lrange_remove_from_processing | done]. }
  pose proof (live_after_acquire (now w) tid (worker_id self) 300 (store w)
                Ha) as Hk.
  pose proof (acquire_lock_accepted _ _ _ _ _ Ha) as Hacc.
  pose proof (lsts_acquire_lock (now w) tid (worker_id self) 300 (store w)) as Hl.
  assert (Hh : Redis.hshs (snd (StateSynchronizer.acquire_lock (now w) tid
                 (worker_id self) 300 (store w))) = Redis.hshs (store w)).
  { revert Ha. rewrite acquire_lock_unfold by done.
    by destruct (Redis.live _ _ _). }
  unfold handle_task at 1. rewrite Hc.
  destruct (StateSynchronizer.acquire_lock (now w) tid (worker_id self) 300
              (store w)) as [ok s1] eqn:Hacq.
  cbn [fst snd] in *. subst ok. cbn [with_store cursor]. rewrite Ht. cbn [negb].
  set (w1 := next (with_store s1 w)).
  exists (remove_from_processing pq raw w1). right.
  split; [exact Hl |]. split.
  - unfold handle_task. subst w1. cbn [store next with_store now].
    unfold StateSynchronizer.get_state, Redis.hgetall in *. rewrite Hh, Hc.
    assert (Hlive : Redis.live (now w) (StateSynchronizer.lock_key tid) s1 = true).
    { unfold Redis.live. rewrite Hk. apply unexpired_lt.
      unfold inject_Z. lra. }
    by rewrite acquire_lock_live.
  - intros k. rewrite lrange_remove_from_processing. subst w1. cbn.
    case_decide; by rewrite !(lrange_lsts (store w) s1).
Qed.

(** X15. When every entry of the processing list is a non-empty text that
    is malformed or parses to an object, the leftover pass returns within
    two rounds per entry, whatever the Executor and the thread start do; it
    leaves the processing list empty and every other list as it was. *)
Theorem process_leftovers_drains pq : forall (l : list string) w fuel,
  Redis.lrange pq (store w) = l ->
  Forall (fun raw => raw ≠ "" /\
            forall v, json_loads raw = Some v -> exists data, v = JObj data) l ->
  (2 * length l < fuel)%nat ->
  exists w',
    process_leftovers result json_loads json_dumps format_value E self
      fuel pq w = Some w' /\
    Redis.lrange pq (store w') = [] /\
    (forall k, k ≠ pq -> Redis.lrange k (store w') = Redis.lrange k (store w)).
Proof.
  induction l as [|raw l IH]; intros w fuel Hl Hok Hfuel.
  - destruct fuel as [|fuel]; [simpl in Hfuel; lia |].
    exists w. cbn [process_leftovers]. unfold Redis.lindex0. rewrite Hl. done.
  - destruct fuel as [|fuel]; [simpl in Hfuel; lia |].
    apply Forall_cons in Hok as [[Hraw Hobj] Hok].
    assert (Hdrop : forall wx,
      (forall k, Redis.lrange k (store wx)
              = if decide (pq = k)
                then Redis.remove_first raw (Redis.lrange pq (store w))
                else Redis.lrange k (store w)) ->
      forall f, (2 * length l < f)%nat ->
      exists w',
        process_leftovers result json_loads json_dumps format_value E self
          f pq wx = Some w' /\
        Redis.lrange pq (store w') = [] /\
        (forall k, k ≠ pq -> Redis.lrange k (store w') = Redis.lrange k (store w))).
    { intros wx Hx f Hf.
      destruct (IH wx f) as (w' & Hrun & He & Ho); [| done | done |].
      - rewrite Hx, decide_True by done. rewrite Hl. apply remove_first_head.
      - exists w'. split; [done |]. split; [done |].
        intros k Hk. rewrite Ho by done. rewrite Hx. by rewrite decide_False. }
    assert (Hrm : forall k, Redis.lrange k (store (remove_from_processing pq raw w))
              = if decide (pq = k)
                then Redis.remove_first raw (Redis.lrange pq (store w))
                else Redis.lrange k (store w))
      by (intros k; apply lrange_remove_from_processing).
    cbn [process_leftovers]. unfold Redis.lindex0. rewrite Hl. cbn [head].
    apply String.eqb_neq in Hraw. rewrite Hraw.
    destruct (json_loads raw) as [v|] eqn:Hload;
      [| apply Hdrop; [exact Hrm | simpl in Hfuel; lia]].
    destruct (Hobj v eq_refl) as [data ->].
    destruct (dict_get "id" data) as [id|] eqn:Hid;
      [| apply Hdrop; [exact Hrm | simpl in Hfuel; lia]].
    destruct (truthy id) eqn:Hti;
      [| apply Hdrop; [exact Hrm | simpl in Hfuel; lia]].
    destruct (handle_task_twice (id_text format_value id) (JObj data) pq raw w)
      as (w2 & Htwice).
    destruct (handle_task result json_dumps E self (id_text format_value id)
                (JObj data) pq raw w) as [w1|] eqn:Hrun; [| done].
    destruct Htwice as [[Hx ->]|(Hsame & Hrun2 & Hx)].
    + apply Hdrop; [exact Hx | simpl in Hfuel; lia].
    + destruct fuel as [|fuel]; [simpl in Hfuel; lia |].
      cbn [process_leftovers]. unfold Redis.lindex0.
      rewrite (lrange_lsts (store w) (store w1)) by done.
      rewrite Hl. cbn [head]. rewrite Hraw, Hload, Hid, Hti, Hrun2.
      apply Hdrop; [exact Hx | simpl in Hfuel; lia].
Qed.

End StepFacts.

(** ** Producer, reporter, backoff cap *)

Section ProducerFacts.

Lemma dict_get_app_absent key fields v :
  dict_get key fields = None ->
  dict_get key (fields ++ [(key, v)]) = Some v.
Proof.
  induction fields as [|[k x] fields IH]; simpl.
  - intros _. by rewrite String.eqb_refl.
  - destruct (String.eqb k key); [discriminate | exact IH].
Qed.

Lemma lrange_rpush k k' v s :
  Redis.lrange k' (Redis.rpush k v s)
  = if decide (k = k') then Redis.lrange k s ++ [v] else Redis.lrange k' s.
Proof. unfold Redis.rpush. apply lrange_put_list. Qed.

(** X16. [submit_task] returns the id of the task it pushed: the caller's
    id when the key is present (whatever its value), the fresh uuid
    otherwise; the serialised task is appended at the tail of the queue and
    no other list changes. *)
Theorem submit_task_fills_missing_id
    (json_dumps : list (string * json) -> string) (uuid4 : string)
    (task_data : list (string * json)) (queue_name : string) (s : Redis.store) :
  let r := Producer.submit_task json_dumps uuid4 task_data queue_name s in
  let sent := match dict_get "id" task_data with
              | Some _ => task_data
              | None => task_data ++ [("id", JStr uuid4)]
              end in
  fst r = dict_get "id" sent /\
  fst r = Some (default (JStr uuid4) (dict_get "id" task_data)) /\
  Redis.lrange queue_name (snd r) = Redis.lrange queue_name s ++ [json_dumps sent] /\
  (forall k, k ≠ queue_name -> Redis.lrange k (snd r) = Redis.lrange k s).
Proof.
  intros r sent. subst r sent. unfold Producer.submit_task. cbn [fst snd].
  split; [done |]. split.
  - destruct (dict_get "id" task_data) as [v|] eqn:Hid; [done |].
    by rewrite dict_get_app_absent.
  - split.
    + rewrite lrange_rpush. by rewrite decide_True.
    + intros k Hk. rewrite lrange_rpush. by rewrite decide_False.
Qed.

(** X17. A task submitted with the default [queue_name] of [submit_task]
    lands in [course_tasks:default], which is none of the worker's default
    queues: [safe_fetch] over the default queues never touches that list,
    and with the default queues empty it returns None although the task is
    waiting. *)
Theorem default_submission_never_fetched
    (json_loads : string -> option json)
    (json_dumps : list (string * json) -> string) (uuid4 : string)
    (task_data : list (string * json)) (pq : string) (s : Redis.store) :
  pq ≠ Producer.submit_task_default_queue ->
  let s1 := snd (Producer.submit_task json_dumps uuid4 task_data
                   Producer.submit_task_default_queue s) in
  let r := TaskProcessor.safe_fetch json_loads TaskProcessor.default_queues pq s1 in
  Redis.lrange Producer.submit_task_default_queue (snd r)
    = Redis.lrange Producer.submit_task_default_queue s1 /\
  Redis.lrange Producer.submit_task_default_queue s1 ≠ [] /\
  ((forall k, k ∈ TaskProcessor.default_queues -> Redis.lrange k s = []) ->
   r = (None, s1)).
Proof.
  intros Hpq s1 r. subst r.
  assert (Hnot : Producer.submit_task_default_queue ∉ TaskProcessor.default_queues).
  { unfold TaskProcessor.default_queues, Producer.submit_task_default_queue.
    rewrite !not_elem_of_cons. repeat split; try discriminate.
    apply not_elem_of_nil. }
  split; [| split].
  - apply safe_fetch_from_other_lists; [exact Hnot | congruence].
  - subst s1. unfold Producer.submit_task. cbn [snd]. rewrite lrange_rpush.
    rewrite decide_True by done. by destruct (Redis.lrange _ s).
  - intros He. unfold TaskProcessor.safe_fetch.
    rewrite <- (app_nil_r TaskProcessor.default_queues).
    rewrite safe_fetch_from_skip_empty; [done |].
    intros k Hk. subst s1. unfold Producer.submit_task. cbn [snd].
    rewrite lrange_rpush. rewrite decide_False; [by apply He |].
    intros <-. done.
Qed.

(** X18. [report_result] answers true exactly when the stub is there, the
    result serialises, the call does not raise and one of the streamed
    responses carries the task id with [received] set. *)
Theorem report_result_iff_acknowledged
    (has_stub serialisable : bool) (reply : GrpcClient.rpc_reply)
    (task_id : string) :
  GrpcClient.report_result has_stub serialisable reply task_id = true <->
  has_stub = true /\ serialisable = true /\
  exists responses resp,
    reply = GrpcClient.RpcResponses responses /\ resp ∈ responses /\
    GrpcClient.resp_task_id resp = task_id /\
    GrpcClient.resp_received resp = true.
Proof.
  assert (Hloop : forall l,
    GrpcClient.first_ack task_id l = true <->
    exists resp, resp ∈ l /\ GrpcClient.resp_task_id resp = task_id /\
                 GrpcClient.resp_received resp = true).
  { induction l as [|r l IH]; simpl.
    - split; [discriminate | intros (? & ?%elem_of_nil & _); done].
    - destruct (String.eqb (GrpcClient.resp_task_id r) task_id
                && GrpcClient.resp_received r) eqn:Hm.
      + apply andb_true_iff in Hm as [Hi%String.eqb_eq Hr].
        split; [intros _ | done]. exists r. split; [by left | done].
      + rewrite IH. split.
        * intros (resp & Hin & Hi & Hr). exists resp. split; [by right | done].
        * intros (resp & [->|Hin]%elem_of_cons & Hi & Hr).
          -- apply String.eqb_eq in Hi. rewrite Hi, Hr in Hm. discriminate.
          -- exists resp. done. }
  unfold GrpcClient.report_result.
  destruct has_stub, serialisable; cbn; try (split; [discriminate | intros (? & ? & _); discriminate]).
  destruct reply as [|l].
  - split; [discriminate | intros (_ & _ & l & resp & Hl & _); discriminate].
  - rewrite Hloop. split.
    + intros (resp & H). split; [done |]. split; [done |]. exists l, resp. done.
    + intros (_ & _ & l' & resp & [= <-] & H). exists resp. done.
Qed.

End ProducerFacts.

Section BackoffCap.

(** X19. Once [base_delay * 2^n] has reached [max_delay], the backoff is
    exactly [max_delay]: the jitter no longer has any effect. *)
Theorem backoff_saturates (self : RetryManager.t) (n : Z) (u : Q) :
  (0 <= RetryManager.base_delay self)%Q -> (0 <= u)%Q ->
  (RetryManager.max_delay self <= RetryManager.delay_of self n)%Q ->
  (RetryManager.get_backoff_time self n u == RetryManager.max_delay self)%Q.
Proof.
  intros Hb Hu Hcap. unfold RetryManager.get_backoff_time.
  apply Q.min_r.
  pose proof (delay_of_nonneg self n Hb) as Hd.
  unfold RetryManager.jitter_of, RetryManager.uniform. nra.
Qed.

End BackoffCap.

Section HeartbeatKeepsAlive.

(** X20. For the lock of [RedisManager.acquire_lock] the heartbeat loop
    does its job: if the lock is live at the first beat, then after any
    positive number of beats it is still held by the same owner and expires
    300 seconds after the last beat. *)
Theorem heartbeat_loop_keeps_sibling_lock rounds : forall start task_id owner exp s,
  task_id ≠ "" ->
  Redis.strs s !! RedisManager.lock_key task_id = Some (owner, exp) ->
  (start < exp)%Q ->
  exists last,
    Redis.strs (CourseSystem.heartbeat_loop (S rounds) start task_id s)
      !! RedisManager.lock_key task_id
    = Some (owner, (last + inject_Z 300)%Q) /\
    (last == start + 10 * inject_Z (Z.of_nat rounds))%Q.
Proof.
  induction rounds as [|n IH]; intros start task_id owner exp s Hne Hk Hlt.
  - exists start. cbn [CourseSystem.heartbeat_loop]. split.
    + by apply strs_heartbeat_live with (exp := exp).
    + cbn. ring.
  - change (CourseSystem.heartbeat_loop (S (S n)) start task_id s)
      with (CourseSystem.heartbeat_loop (S n) (start + 10)%Q task_id
              (RedisManager.heartbeat start task_id s)).
    destruct (IH (start + 10)%Q task_id owner (start + inject_Z 300)%Q
                (RedisManager.heartbeat start task_id s)) as (last & Hl & He).
    + done.
    + by apply strs_heartbeat_live with (exp := exp).
    + unfold inject_Z. lra.
    + exists last. split; [exact Hl |]. rewrite He.
      rewrite Nat2Z.inj_succ. unfold Z.succ. rewrite inject_Z_plus.
      change (inject_Z 1) with 1%Q. ring.
Qed.

End HeartbeatKeepsAlive.

(** ** Worked instances of the further properties *)

Section FurtherInstances.

Import CourseSystem.

(** [w1] holds [t1] from instant 0 for 300 seconds; [w2] asks at 299. *)
Lemma acquire_excludes_until_expiry_witness :
  let s1 := snd (StateSynchronizer.acquire_lock 0 "t1" "w1" 300 Redis.empty) in
  StateSynchronizer.acquire_lock 299 "t1" "w2" 300 s1 = (false, s1) /\
  Redis.get 299 (StateSynchronizer.lock_key "t1") s1 = Some "w1".
Proof.
  apply (acquire_excludes_until_expiry 0 299 "t1" "w1" "w2" 300 300 Redis.empty).
  - lia.
  - vm_compute; reflexivity.
  - vm_compute; reflexivity.
Defined.


Lemma acquire_release_round_trip_witness :
  let s1 := snd (StateSynchronizer.acquire_lock 0 "t1" "w1" 300 Redis.empty) in
  let s2 := StateSynchronizer.release_lock 10 "t1" "w1" s1 in
  Redis.live 10 (StateSynchronizer.lock_key "t1") s2 = false /\
  fst (StateSynchronizer.acquire_lock 10 "t1" "w2" 300 s2) = true.
Proof.
  destruct (acquire_release_round_trip 0 10 "t1" "w1" 300 Redis.empty)
    as (_ & Hlive & _ & _ & _ & _ & Hnext).
  - lia.
  - vm_compute; reflexivity.
  - vm_compute; reflexivity.
  - split; [exact Hlive | exact (Hnext 10%Q "w2" 300)].
Defined.

(** A lock created for 1000 seconds at instant 0 expires at 310 after a
    beat at instant 10. *)
Lemma heartbeat_effect_witness :
  let s := snd (RedisManager.acquire_lock 0 "w1" "t1" 1000 Redis.empty) in
  Redis.strs (RedisManager.heartbeat 10 "t1" s) !! RedisManager.lock_key "t1"
  = Some ("w1", (10 + inject_Z 300)%Q).
Proof.
  intros s.
  destruct (heartbeat_effect 10 "t1" s) as (Hbeat & _).
  - discriminate.
  - apply (Hbeat "w1" (0 + inject_Z 1000)%Q).
    + vm_compute; reflexivity.
    + vm_compute; reflexivity.
Defined.

(** [t1] waits in [tasks:default]; [t2] is enqueued after it and comes out
    first. *)
Lemma safe_fetch_takes_newest_witness :
  let s := TaskProcessor.enqueue "tasks:default" Sample.raw_t1 Redis.empty in
  let r := TaskProcessor.safe_fetch Sample.loads TaskProcessor.default_queues
             Sample.processing
             (TaskProcessor.enqueue "tasks:default" Sample.raw_t2 s) in
  fst r = Some (TaskProcessor.Fetched (JStr "t2") [("id", JStr "t2")]
                  "tasks:default" Sample.raw_t2) /\
  Redis.lrange "tasks:default" (snd r) = [Sample.raw_t1].
Proof.
  intros s.
  destruct (safe_fetch_takes_newest Sample.loads
              ["tasks:high"; "tasks:medium"; "tasks:low"] [] "tasks:default"
              Sample.processing s Sample.raw_t2 [("id", JStr "t2")] (JStr "t2"))
    as (Hf & Hq & _).
  - intros k Hk. rewrite !elem_of_cons in Hk.
    destruct Hk as [->|[->|[->|Hk]]]; [vm_compute; reflexivity .. |].
    by apply elem_of_nil in Hk.
  - rewrite !not_elem_of_cons. repeat split; try discriminate.
    apply not_elem_of_nil.
  - discriminate.
  - discriminate.
  - vm_compute; reflexivity.
  - reflexivity.
  - reflexivity.
  - split; [exact Hf |]. etrans; [exact Hq | vm_compute; reflexivity].
Defined.

(** The text [oops] does not parse: it leaves the high queue and is in no
    list afterwards. *)
Lemma safe_fetch_drops_malformed_witness :
  let s := TaskProcessor.enqueue "tasks:high" "oops" Redis.empty in
  let s2 := Redis.lrem1 Sample.processing "oops"
              (snd (Redis.rpoplpush "tasks:high" Sample.processing s)) in
  TaskProcessor.safe_fetch Sample.loads TaskProcessor.default_queues
    Sample.processing s
  = TaskProcessor.safe_fetch Sample.loads
      ["tasks:medium"; "tasks:low"; "tasks:default"] Sample.processing s2 /\
  Redis.lrange "tasks:high" s2 = [] /\
  Redis.lrange Sample.processing s2 = [].
Proof.
  intros s.
  destruct (safe_fetch_drops_malformed Sample.loads "tasks:high"
              ["tasks:medium"; "tasks:low"; "tasks:default"]
              Sample.processing s [] "oops")
    as (Hstep & Hq & Hp & _).
  - vm_compute; reflexivity.
  - discriminate.
  - vm_compute; reflexivity.
  - discriminate.
  - split; [exact Hstep |]. split; [exact Hq |]. etrans; [exact Hp | vm_compute; reflexivity].
Defined.

(** [t1] was pushed before [t2]: [fetch_task] returns [t1]. *)
Lemma fetch_task_pops_head_witness :
  let s := TaskProcessor.enqueue "tasks:default" Sample.raw_t2
             (TaskProcessor.enqueue "tasks:default" Sample.raw_t1 Redis.empty) in
  let r := TaskProcessor.fetch_task Sample.loads TaskProcessor.default_queues s in
  fst r = Some (JStr "t1", [("id", JStr "t1")], "tasks:default") /\
  Redis.lrange "tasks:default" (snd r) = [Sample.raw_t2].
Proof.
  intros s.
  destruct (fetch_task_pops_head Sample.loads
              ["tasks:high"; "tasks:medium"; "tasks:low"] [] "tasks:default"
              s Sample.raw_t1 [Sample.raw_t2])
    as (_ & Hq & _ & Hf & _).
  - intros k Hk. rewrite !elem_of_cons in Hk.
    destruct Hk as [->|[->|[->|Hk]]]; [vm_compute; reflexivity .. |].
    by apply elem_of_nil in Hk.
  - vm_compute; reflexivity.
  - split; [| exact Hq].
    apply Hf; vm_compute; reflexivity.
Defined.


Lemma worker_step_restores_processing_witness :
  let w := Sample.world0
             (TaskProcessor.enqueue "tasks:default" Sample.raw_t1 Redis.empty) in
  exists w',
    worker_step string Sample.loads Sample.dumps Sample.format_value
      (Sample.flaky 1) Sample.worker TaskProcessor.default_queues
      Sample.processing w = Some w' /\
    Redis.lrange "tasks:default" (store w') = [] /\
    Redis.lrange Sample.processing (store w') = [].
Proof.
  intros w.
  destruct (worker_step_restores_processing string Sample.loads Sample.dumps
              Sample.format_value (Sample.flaky 1) Sample.worker
              ["tasks:high"; "tasks:medium"; "tasks:low"] [] "tasks:default"
              Sample.processing w [] Sample.raw_t1 [("id", JStr "t1")]
              (JStr "t1"))
    as (w' & Hrun & Hq & Hp & _).
  - intros k Hk. rewrite !elem_of_cons in Hk.
    destruct Hk as [->|[->|[->|Hk]]]; [vm_compute; reflexivity .. |].
    by apply elem_of_nil in Hk.
  - vm_compute; reflexivity.
  - discriminate.
  - vm_compute; reflexivity.
  - reflexivity.
  - reflexivity.
  - discriminate.
  - vm_compute; reflexivity.
  - exists w'. split; [exact Hrun |]. split; [exact Hq |]. etrans; [exact Hp | vm_compute; reflexivity].
Defined.

(** An object without id and the task [t1] were left behind, and the host
    cannot start threads: five rounds drain the list. *)
Lemma process_leftovers_drains_witness :
  let w := Sample.world0
             (TaskProcessor.enqueue Sample.processing Sample.raw_t1
                (TaskProcessor.enqueue Sample.processing Sample.raw_noid
                   Redis.empty)) in
  exists w',
    process_leftovers string Sample.loads Sample.dumps Sample.format_value
      Sample.no_threads Sample.worker 5 Sample.processing w = Some w' /\
    Redis.lrange Sample.processing (store w') = [].
Proof.
  intros w.
  destruct (process_leftovers_drains string Sample.loads Sample.dumps
              Sample.format_value Sample.no_threads Sample.worker
              Sample.processing [Sample.raw_noid; Sample.raw_t1] w 5%nat)
    as (w' & Hrun & He & _).
  - vm_compute; reflexivity.
  - repeat constructor; try discriminate.
    + intros v Hv. vm_compute in Hv. injection Hv as <-. eauto.
    + intros v Hv. vm_compute in Hv. injection Hv as <-. eauto.
  - simpl. lia.
  - exists w'. split; [exact Hrun | exact He].
Defined.

Lemma default_submission_never_fetched_witness :
  let s1 := snd (Producer.submit_task (fun _ => Sample.raw_t1) "t1" []
                   Producer.submit_task_default_queue Redis.empty) in
  TaskProcessor.safe_fetch Sample.loads TaskProcessor.default_queues
    Sample.processing s1 = (None, s1) /\
  Redis.lrange Producer.submit_task_default_queue s1 ≠ [].
Proof.
  destruct (default_submission_never_fetched Sample.loads
              (fun _ => Sample.raw_t1) "t1" [] Sample.processing Redis.empty)
    as (_ & Hne & Hnone).
  - discriminate.
  - split; [| exact Hne]. apply Hnone. intros k _. reflexivity.
Defined.

(** With the defaults the cap of 60 seconds is reached at count 6. *)
Lemma backoff_saturates_witness :
  (RetryManager.get_backoff_time RetryManager.default 6 (1 # 2) == 60)%Q.
Proof.
  apply (backoff_saturates RetryManager.default 6 (1 # 2)).
  - discriminate.
  - discriminate.
  - vm_compute. discriminate.
Defined.

Lemma heartbeat_loop_keeps_sibling_lock_witness :
  let s := snd (RedisManager.acquire_lock 0 "w1" "t1" 300 Redis.empty) in
  exists last,
    Redis.strs (heartbeat_loop 3 0 "t1" s) !! RedisManager.lock_key "t1"
    = Some ("w1", (last + inject_Z 300)%Q) /\
    (last == 20)%Q.
Proof.
  intros s.
  destruct (heartbeat_loop_keeps_sibling_lock 2 0 "t1" "w1"
              (0 + inject_Z 300)%Q s) as (last & Hk & He).
  - discriminate.
  - vm_compute; reflexivity.
  - vm_compute; reflexivity.
  - exists last. split; [exact Hk |]. etrans; [exact He | vm_compute; reflexivity].
Defined.

End FurtherInstances.

(** ** A task that outlives its lease *)

Section LongTask.



End LongTask.
